(** * oas-dsl: a builder for OpenAPI 3.0 documents

    A shallow embedding of the TypeScript sources of the DSL (schema nodes,
    parameter projection, routes, the document assembler) and the properties
    of its specification.

    Conventions of the embedding:
    - a JavaScript [number] is an integer of [Z];
    - a JavaScript string is a [string], one character per code unit;
    - [undefined] is a value of its own ([JUndefined]) wherever the source
      stores it under a key, and [None] for an optional field of a class;
    - a JavaScript object is the list of its own enumerable properties in
      the order [Object.keys] lists them;
    - a function that may [throw] returns a [Result];
    - the static members of the classes, the objects allocated by the
      builders and the side effects on the outside live in a [World] that is
      threaded through a state and exception monad;
    - the platform and the libraries ([fs], [os], [path], [crypto],
      [$RefParser], [prettier], [jsonpath], [JSON]) are the fields of a
      record of [Collaborators], over which the build is stated;
    - an [async] function is run to its end where it is awaited. *)

From Stdlib Require Import ZArith String Ascii List Permutation Sorted Lia.
From stdpp Require Import base list strings pretty.
Import ListNotations.

Set Warnings "-register-all".
Local Open Scope string_scope.
Local Open Scope Z_scope.
Local Open Scope list_scope.

(** ** JavaScript values and objects *)

Module Js.

Inductive JsVal : Type :=
| JUndefined
| JNull
| JBool (b : bool)
| JNum (n : Z)
| JStr (s : string)
| JArr (l : list JsVal)
| JObj (o : list (string * JsVal)).

(** Own enumerable properties, in enumeration order. *)
Definition JsObj (V : Type) : Type := list (string * V).

(** Digits of a decimal numeral, most significant first. *)
Definition digit_of (c : ascii) : option N :=
  let n := N_of_ascii c in
  if ((48 <=? n) && (n <=? 57))%N then Some (n - 48)%N else None.

Fixpoint parse_digits (acc : N) (s : string) : option N :=
  match s with
  | EmptyString => Some acc
  | String c r =>
      match digit_of c with
      | Some d => parse_digits (10 * acc + d)%N r
      | None => None
      end
  end.

(** An array index is a key that is the canonical numeral of an integer
    below 2^32 - 1.  Such keys are enumerated before all others, in
    ascending numeric order. *)
Definition is_array_index (k : string) : option N :=
  match k with
  | EmptyString => None
  | _ =>
      match parse_digits 0%N k with
      | Some n =>
          if (String.eqb (pretty n) k && (n <? 4294967295)%N)%bool
          then Some n else None
      | None => None
      end
  end.

Section Objects.
Context {V : Type}.

(** [o[k]] restricted to own properties. *)
Fixpoint obj_get (o : JsObj V) (k : string) : option V :=
  match o with
  | [] => None
  | (k', v) :: r => if String.eqb k k' then Some v else obj_get r k
  end.

Definition obj_has (o : JsObj V) (k : string) : bool :=
  match obj_get o k with Some _ => true | None => false end.

(** [Object.keys(o)] *)
Definition obj_keys (o : JsObj V) : list string := map fst o.

(** [Object.values(o)] *)
Definition obj_values (o : JsObj V) : list V := map snd o.

Fixpoint obj_replace (o : JsObj V) (k : string) (v : V) : JsObj V :=
  match o with
  | [] => []
  | (k', v') :: r =>
      if String.eqb k k' then (k', v) :: r
      else (k', v') :: obj_replace r k v
  end.

Fixpoint obj_insert_index (o : JsObj V) (i : N) (k : string) (v : V)
  : JsObj V :=
  match o with
  | [] => [(k, v)]
  | (k', v') :: r =>
      match is_array_index k' with
      | Some j =>
          if (j <? i)%N then (k', v') :: obj_insert_index r i k v
          else (k, v) :: (k', v') :: r
      | None => (k, v) :: (k', v') :: r
      end
  end.

(** Defining the own property [k]: [{...o, [k]: v}], or [o[k] = v] when
    no setter is inherited for [k].  An existing key keeps its place, a
    new array index goes to its numeric place, any other new key goes
    last. *)
Definition obj_set (o : JsObj V) (k : string) (v : V) : JsObj V :=
  if obj_has o k then obj_replace o k v
  else match is_array_index k with
       | Some i => obj_insert_index o i k v
       | None => o ++ [(k, v)]
       end.

(** [{...acc, ...o}] *)
Definition obj_assign (acc o : JsObj V) : JsObj V :=
  fold_left (fun a kv => obj_set a (fst kv) (snd kv)) o acc.

(** An object literal: the properties are defined left to right. *)
Definition obj_lit (l : list (string * V)) : JsObj V := obj_assign [] l.

(** The rest of a destructuring pattern: [const {k1, k2, ...rest} = o]. *)
Definition obj_rest (ks : list string) (o : JsObj V) : JsObj V :=
  List.filter (fun kv => negb (existsb (String.eqb (fst kv)) ks)) o.
End Objects.

(** The properties that every plain object inherits from
    [Object.prototype]. *)
Definition ObjectPrototype : list string :=
  [ "constructor"; "__defineGetter__"; "__defineSetter__"; "hasOwnProperty";
    "__lookupGetter__"; "__lookupSetter__"; "isPrototypeOf";
    "propertyIsEnumerable"; "toString"; "valueOf"; "__proto__";
    "toLocaleString" ].

Definition inherited (k : string) : bool := existsb (String.eqb k) ObjectPrototype.

(** What [o[k]] finds on a plain object [o]: own properties first, then the
    prototype. *)
Inductive Property (V : Type) : Type :=
| Own (v : V)
| Inherited (name : string)
| Missing.
Arguments Own {V} v.
Arguments Inherited {V} name.
Arguments Missing {V}.

Definition prop_get {V : Type} (o : JsObj V) (k : string) : Property V :=
  match obj_get o k with
  | Some v => Own v
  | None => if inherited k then Inherited k else Missing
  end.

(** [String(x)] for an inherited member [x]: the built-in functions print
    their native source; [__proto__] reads as [Object.prototype] itself. *)
Definition builtin_toString (name : string) : string :=
  if String.eqb name "__proto__" then "[object Object]"
  else "function " +:+ (if String.eqb name "constructor" then "Object" else name)
       +:+ "() { [native code] }".

(** [o[k] = v] on a plain object [o] for a primitive [v]: the inherited
    setter of [__proto__] ignores a primitive and defines nothing. *)
Definition prop_assign {V : Type} (o : JsObj V) (k : string) (v : V) : JsObj V :=
  if (String.eqb k "__proto__" && negb (obj_has o k))%bool then o
  else obj_set o k v.

(** [opt(x)]: an optional attribute as a value. *)
Definition of_option {A : Type} (f : A -> JsVal) (x : option A) : JsVal :=
  match x with Some a => f a | None => JUndefined end.

(** Reading a property of a fragment, [undefined] when absent. *)
Definition get (o : JsObj JsVal) (k : string) : JsVal :=
  match obj_get o k with Some v => v | None => JUndefined end.

Definition is_undefined (v : JsVal) : bool :=
  match v with JUndefined => true | _ => false end.

(** [const ignoreUndefined = (filters) => Object.keys(filters).reduce(...)] *)
Definition ignoreUndefined (filters : JsObj JsVal) : JsObj JsVal :=
  fold_left
    (fun acc key =>
       if is_undefined (get filters key) then acc
       else obj_set acc key (get filters key))
    (obj_keys filters) [].

End Js.
Export Js.

(** ** Results of functions that may throw *)

Inductive Result (A : Type) : Type :=
| Ok (a : A)
| Throw (message : string).
Arguments Ok {A} a.
Arguments Throw {A} message.

#[export] Instance Result_ret : MRet Result := fun A a => Ok a.
#[export] Instance Result_bind : MBind Result := fun A B f m =>
  match m with
  | Ok a => f a
  | Throw e => Throw e
  end.
#[export] Instance Result_fmap : FMap Result := fun A B f m =>
  match m with
  | Ok a => Ok (f a)
  | Throw e => Throw e
  end.

(** [reduce] with a body that may throw. *)
Fixpoint reduce {A B : Type} (f : B -> A -> Result B) (l : list A) (acc : B)
  : Result B :=
  match l with
  | [] => Ok acc
  | x :: r =>
      match f acc x with
      | Ok acc' => reduce f r acc'
      | Throw e => Throw e
      end
  end.

(** ** Schema nodes *)

Inductive SchemaType : Type := flat | referenced.

Record Options : Type := mkOptions { type : SchemaType }.

Definition JsonSchema : Type := JsObj JsVal.

(** The members declared by the abstract classes [Schema] and
    [ExtensibleSchema].  [_example] is of type [any]: it holds whatever
    value it was given, [undefined] before that. *)
Record Base : Type := mkBase {
  _description : option string;
  _required : option bool;
  _deprecated : option bool;
  _explode : option bool;
  _examples : option JsVal;
  _example : JsVal;
}.

(** A freshly constructed object: every member undefined. *)
Definition Base0 : Base :=
  {| _description := None; _required := None; _deprecated := None;
     _explode := None; _examples := None; _example := JUndefined |}.

(** One constructor per class.  A member that refers to another node holds
    the value of that node; [_fields] holds the own properties of the
    record it was given, in [Object.keys] order; [_regex] holds the
    [source] of the regular expression; [_file] holds [file.toString()]. *)
Inductive Schema : Type :=
| StringField (b : Base) (_minLength _maxLength : option Z) (_regex : option string)
| BooleanField (b : Base)
| DateField (b : Base) (_format : option string)
| NumberField (b : Base) (_min _max _default : option Z)
| EnumField (b : Base) (_enum : list string)
| ObjectField (b : Base) (_fields : JsObj Schema) (_additionalProperties : option bool)
| ArrayField (b : Base) (_items : option Schema)
| FixedSchema (b : Base) (_schema : Schema) (_label : string)
| ReferenceSchema (b : Base) (_file : string) (_path : string)
| OneOfSchema (b : Base) (_schemas : list Schema)
| AnyOfSchema (b : Base) (_schemas : list Schema).

Definition base (s : Schema) : Base :=
  match s with
  | StringField b _ _ _ | BooleanField b | DateField b _ | NumberField b _ _ _
  | EnumField b _ | ObjectField b _ _ | ArrayField b _ | FixedSchema b _ _
  | ReferenceSchema b _ _ | OneOfSchema b _ | AnyOfSchema b _ => b
  end.

Definition with_base (f : Base -> Base) (s : Schema) : Schema :=
  match s with
  | StringField b mn mx re => StringField (f b) mn mx re
  | BooleanField b => BooleanField (f b)
  | DateField b fmt => DateField (f b) fmt
  | NumberField b mn mx d => NumberField (f b) mn mx d
  | EnumField b e => EnumField (f b) e
  | ObjectField b fs ap => ObjectField (f b) fs ap
  | ArrayField b it => ArrayField (f b) it
  | FixedSchema b s l => FixedSchema (f b) s l
  | ReferenceSchema b fl p => ReferenceSchema (f b) fl p
  | OneOfSchema b ss => OneOfSchema (f b) ss
  | AnyOfSchema b ss => AnyOfSchema (f b) ss
  end.

(** [x ? .. : ..] on an optional boolean member. *)
Definition truthy (x : option bool) : bool :=
  match x with Some true => true | _ => false end.

(** [const toSchemaName = (label) => label.replace(/[^A-Za-z0-9\-\._]/gm, "_")] *)
Definition schema_name_char (c : ascii) : bool :=
  let n := N_of_ascii c in
  ((65 <=? n) && (n <=? 90) || (97 <=? n) && (n <=? 122)
   || (48 <=? n) && (n <=? 57) || (n =? 45) || (n =? 46) || (n =? 95))%N.

Fixpoint toSchemaName (label : string) : string :=
  match label with
  | EmptyString => EmptyString
  | String c r =>
      String (if schema_name_char c then c else "_"%char) (toSchemaName r)
  end.

(** [ExtensibleSchema.baseFields] *)
Definition baseFields (b : Base) : JsObj JsVal :=
  obj_lit [ ("description", of_option JStr (_description b));
            ("example", _example b);
            ("deprecated", of_option JBool (_deprecated b)) ].

(** [ExtensibleSchema.toJSonSchema], given the result of [this.ownFields]. *)
Definition ExtensibleSchema_toJSonSchema (b : Base) (own : JsObj JsVal)
  : JsonSchema :=
  let type := get own "type" in
  let format := get own "format" in
  let ownFields := obj_rest ["type"; "format"] own in
  ignoreUndefined
    (obj_assign
       (obj_assign (obj_lit [("type", type); ("format", format)]) (baseFields b))
       ownFields).

(** [requiredFields] of [ObjectField.ownFields] *)
Definition requiredFields (fields : JsObj Schema) : list string :=
  List.filter
    (fun key =>
       match obj_get fields key with
       | Some f => truthy (_required (base f))
       | None => false
       end)
    (obj_keys fields).

(** The [reduce] of [ObjectField.ownFields] over the serialized fields. *)
Definition properties_of (props : list (string * JsonSchema)) : JsObj JsVal :=
  fold_left (fun acc kv => obj_set acc (fst kv) (JObj (snd kv))) props [].

Definition ObjectField_ownFields (b : Base) (fields : JsObj Schema)
    (ap : option bool) (props : list (string * JsonSchema)) : JsObj JsVal :=
  let fieldNames := obj_keys fields in
  let required := requiredFields fields in
  obj_lit
    [ ("type", JStr "object");
      ("description", of_option JStr (_description b));
      ("properties",
        match fieldNames with
        | [] => JUndefined
        | _ => JObj (properties_of props)
        end);
      ("additionaProperties", of_option JBool ap);
      ("required",
        match required with
        | [] => JUndefined
        | _ => JArr (map JStr required)
        end) ].

Definition StringField_ownFields (mn mx : option Z) (re : option string)
  : JsObj JsVal :=
  obj_lit [ ("type", JStr "string");
            ("minLength", of_option JNum mn);
            ("maxLength", of_option JNum mx);
            ("pattern", of_option JStr re) ].

Definition NumberField_ownFields (mn mx d : option Z) : JsObj JsVal :=
  obj_lit [ ("type", JStr "number");
            ("minimum", of_option JNum mn);
            ("maximum", of_option JNum mx);
            ("default", of_option JNum d) ].

(** [ReferenceSchema.toJSonSchema], given the static [externalFiles]. *)
Definition ReferenceSchema_toJSonSchema (externalFiles : JsObj string)
    (file path : string) : Result JsonSchema :=
  let sourceFilename := file in
  match prop_get externalFiles sourceFilename with
  | Own targetFilename =>
      if String.eqb targetFilename ""
      then Throw ("External file not found: " +:+ sourceFilename)
      else Ok (obj_lit [("$ref", JStr (targetFilename +:+ "#" +:+ path))])
  | Inherited name =>
      Ok (obj_lit [("$ref", JStr (builtin_toString name +:+ "#" +:+ path))])
  | Missing => Throw ("External file not found: " +:+ sourceFilename)
  end.

Section Serialize.
(** [ReferenceSchema.externalFiles] at the time of the call *)
Variable externalFiles : JsObj string.
Variable options : Options.

(** [toJSonSchema(options)], dispatched on the class of the receiver.
    The fields of an object and the alternatives of a union are visited
    in order; the first one that throws ends the call.  The properties of
    [_fields] are visited as pairs: their keys being distinct, that is
    [Object.keys(fields)] with [fields[key]] for each key. *)
Fixpoint toJSonSchema (s : Schema) {struct s} : Result JsonSchema :=
  let fields_toJSonSchema :=
    fix go (fs : JsObj Schema) : Result (list (string * JsonSchema)) :=
      match fs with
      | [] => Ok []
      | (key, f) :: r =>
          match toJSonSchema f with
          | Ok v =>
              match go r with
              | Ok vs => Ok ((key, v) :: vs)
              | Throw e => Throw e
              end
          | Throw e => Throw e
          end
      end in
  let map_toJSonSchema :=
    fix go (ss : list Schema) : Result (list JsonSchema) :=
      match ss with
      | [] => Ok []
      | s' :: r =>
          match toJSonSchema s' with
          | Ok v =>
              match go r with
              | Ok vs => Ok (v :: vs)
              | Throw e => Throw e
              end
          | Throw e => Throw e
          end
      end in
  match s with
  | StringField b mn mx re =>
      Ok (ExtensibleSchema_toJSonSchema b (StringField_ownFields mn mx re))
  | BooleanField b =>
      Ok (ExtensibleSchema_toJSonSchema b (obj_lit [("type", JStr "boolean")]))
  | DateField b fmt =>
      Ok (ExtensibleSchema_toJSonSchema b
            (obj_lit [("type", JStr "string"); ("format", of_option JStr fmt)]))
  | NumberField b mn mx d =>
      Ok (ExtensibleSchema_toJSonSchema b (NumberField_ownFields mn mx d))
  | EnumField b values =>
      Ok (ExtensibleSchema_toJSonSchema b
            (obj_lit [("type", JStr "string"); ("enum", JArr (map JStr values))]))
  | ObjectField b fields ap =>
      match fields_toJSonSchema fields with
      | Ok props =>
          Ok (ExtensibleSchema_toJSonSchema b
                (ObjectField_ownFields b fields ap props))
      | Throw e => Throw e
      end
  | ArrayField b items =>
      match items with
      | Some it =>
          match toJSonSchema it with
          | Ok v =>
              Ok (ExtensibleSchema_toJSonSchema b
                    (obj_lit [("type", JStr "array"); ("items", JObj v)]))
          | Throw e => Throw e
          end
      | None =>
          Ok (ExtensibleSchema_toJSonSchema b
                (obj_lit [("type", JStr "array"); ("items", JUndefined)]))
      end
  | FixedSchema _ schema label =>
      match type options with
      | flat => toJSonSchema schema
      | referenced =>
          Ok (obj_lit [("$ref", JStr ("#/components/schemas/" +:+ label))])
      end
  | ReferenceSchema _ file path =>
      ReferenceSchema_toJSonSchema externalFiles file path
  | OneOfSchema _ schemas =>
      match map_toJSonSchema schemas with
      | Ok vs => Ok (obj_lit [("oneOf", JArr (map JObj vs))])
      | Throw e => Throw e
      end
  | AnyOfSchema _ schemas =>
      match map_toJSonSchema schemas with
      | Ok vs => Ok (obj_lit [("anyOf", JArr (map JObj vs))])
      | Throw e => Throw e
      end
  end.

(** The two local loops of [toJSonSchema], by name. *)
Fixpoint fields_toJSonSchema (fs : JsObj Schema)
  : Result (list (string * JsonSchema)) :=
  match fs with
  | [] => Ok []
  | (key, f) :: r =>
      match toJSonSchema f with
      | Ok v =>
          match fields_toJSonSchema r with
          | Ok vs => Ok ((key, v) :: vs)
          | Throw e => Throw e
          end
      | Throw e => Throw e
      end
  end.

Fixpoint map_toJSonSchema (ss : list Schema) : Result (list JsonSchema) :=
  match ss with
  | [] => Ok []
  | s' :: r =>
      match toJSonSchema s' with
      | Ok v =>
          match map_toJSonSchema r with
          | Ok vs => Ok (v :: vs)
          | Throw e => Throw e
          end
      | Throw e => Throw e
      end
  end.

(** [FixedSchema.toComponent] *)
Definition toComponent (schema : Schema) (label : string)
  : Result (JsObj JsVal) :=
  v ← toJSonSchema schema;
  mret (obj_lit [(toSchemaName label, JObj v)]).
End Serialize.

(** ** The world: allocated objects, static members, outside effects *)

(** What the build does to the outside. *)
Inductive Effect : Type :=
| MkDir (dir : string)
| RmDir (dir : string)
| WriteFile (filename data : string)
| ConsoleLog (text : string).

(** An object is known by its address in [heap]. *)
Definition addr : Type := nat.

Record World : Type := mkWorld {
  heap : list Schema;
  (** [FixedSchema.registeredFixedSchemas] *)
  registeredFixedSchemas : list string;
  (** [ReferenceSchema.externalFiles] *)
  externalFiles : JsObj string;
  (** the effects so far, oldest first *)
  effects : list Effect;
}.

Definition World0 : World :=
  {| heap := []; registeredFixedSchemas := []; externalFiles := []; effects := [] |}.

Definition set_heap (f : list Schema -> list Schema) (w : World) : World :=
  {| heap := f (heap w); registeredFixedSchemas := registeredFixedSchemas w;
     externalFiles := externalFiles w; effects := effects w |}.

Definition set_registeredFixedSchemas (f : list string -> list string)
    (w : World) : World :=
  {| heap := heap w; registeredFixedSchemas := f (registeredFixedSchemas w);
     externalFiles := externalFiles w; effects := effects w |}.

Definition set_externalFiles (f : JsObj string -> JsObj string) (w : World)
  : World :=
  {| heap := heap w; registeredFixedSchemas := registeredFixedSchemas w;
     externalFiles := f (externalFiles w); effects := effects w |}.

Definition set_effects (f : list Effect -> list Effect) (w : World) : World :=
  {| heap := heap w; registeredFixedSchemas := registeredFixedSchemas w;
     externalFiles := externalFiles w; effects := f (effects w) |}.

(** Computations on the world.  A [throw] keeps the world it has reached. *)
Definition M (A : Type) : Type := World -> Result A * World.

#[export] Instance M_ret : MRet M := fun A a w => (Ok a, w).
#[export] Instance M_bind : MBind M := fun A B f m w =>
  match m w with
  | (Ok a, w') => f a w'
  | (Throw e, w') => (Throw e, w')
  end.

Definition throw {A : Type} (message : string) : M A :=
  fun w => (Throw message, w).

Definition lift {A : Type} (r : Result A) : M A := fun w => (r, w).

Definition gets {A : Type} (f : World -> A) : M A := fun w => (Ok (f w), w).

Definition modify (f : World -> World) : M unit := fun w => (Ok tt, f w).

(** [try { m } finally { f }] *)
Definition try_finally {A : Type} (m : M A) (f : M unit) : M A :=
  fun w =>
    match m w with
    | (r, w') =>
        match f w' with
        | (Ok _, w'') => (r, w'')
        | (Throw e, w'') => (Throw e, w'')
        end
    end.

Definition emit (e : Effect) : M unit := modify (set_effects (fun l => l ++ [e])).

(** A new object. *)
Definition alloc (s : Schema) : M addr :=
  fun w => (Ok (length (heap w)), set_heap (fun h => h ++ [s]) w).

(** Reading through a reference.  Every address handed out by [alloc] is
    allocated; the [Throw] is for addresses that no builder returned. *)
Definition deref (a : addr) : M Schema :=
  fun w =>
    match heap w !! a with
    | Some s => (Ok s, w)
    | None => (Throw "TypeError: not an object", w)
    end.

(** [that.member = value], as a change [f] of the object at [that]. *)
Definition assign (that : addr) (f : Schema -> Schema) : M unit :=
  modify (set_heap (alter f that)).

(** [function clone<T>(t: T)]: a new object of the same class with a copy
    of the own properties of [t]. *)
Definition clone (t : addr) : M addr :=
  s ← deref t;
  alloc s.

(** *** Assignments to the members *)

Definition set__description (v : option string) (b : Base) : Base :=
  {| _description := v; _required := _required b; _deprecated := _deprecated b;
     _explode := _explode b; _examples := _examples b; _example := _example b |}.

Definition set__required (v : option bool) (b : Base) : Base :=
  {| _description := _description b; _required := v; _deprecated := _deprecated b;
     _explode := _explode b; _examples := _examples b; _example := _example b |}.

Definition set__deprecated (v : option bool) (b : Base) : Base :=
  {| _description := _description b; _required := _required b; _deprecated := v;
     _explode := _explode b; _examples := _examples b; _example := _example b |}.

Definition set__explode (v : option bool) (b : Base) : Base :=
  {| _description := _description b; _required := _required b;
     _deprecated := _deprecated b; _explode := v; _examples := _examples b;
     _example := _example b |}.

Definition set__examples (v : option JsVal) (b : Base) : Base :=
  {| _description := _description b; _required := _required b;
     _deprecated := _deprecated b; _explode := _explode b; _examples := v;
     _example := _example b |}.

Definition set__example (v : JsVal) (b : Base) : Base :=
  {| _description := _description b; _required := _required b;
     _deprecated := _deprecated b; _explode := _explode b;
     _examples := _examples b; _example := v |}.

(** The members of the subclasses.  The type checker of the source only
    allows such an assignment on an object of the class; on any other
    object it is left out here. *)
Definition set__minLength (d : Z) (s : Schema) : Schema :=
  match s with StringField b _ mx re => StringField b (Some d) mx re | _ => s end.

Definition set__maxLength (d : Z) (s : Schema) : Schema :=
  match s with StringField b mn _ re => StringField b mn (Some d) re | _ => s end.

Definition set__regex (d : string) (s : Schema) : Schema :=
  match s with StringField b mn mx _ => StringField b mn mx (Some d) | _ => s end.

Definition set__format (d : string) (s : Schema) : Schema :=
  match s with DateField b _ => DateField b (Some d) | _ => s end.

Definition set__min (d : Z) (s : Schema) : Schema :=
  match s with NumberField b _ mx df => NumberField b (Some d) mx df | _ => s end.

Definition set__max (d : Z) (s : Schema) : Schema :=
  match s with NumberField b mn _ df => NumberField b mn (Some d) df | _ => s end.

Definition set__default (d : Z) (s : Schema) : Schema :=
  match s with NumberField b mn mx _ => NumberField b mn mx (Some d) | _ => s end.

Definition set__additionalProperties (d : bool) (s : Schema) : Schema :=
  match s with ObjectField b fs _ => ObjectField b fs (Some d) | _ => s end.

Definition set__items (d : Schema) (s : Schema) : Schema :=
  match s with ArrayField b _ => ArrayField b (Some d) | _ => s end.

(** *** The modifiers of [Schema] *)

Definition Schema_required (this : addr) : M addr :=
  that ← clone this;
  assign that (with_base (set__required (Some true)));;
  mret that.

Definition Schema_deprecated (this : addr) : M addr :=
  that ← clone this;
  assign that (with_base (set__deprecated (Some true)));;
  mret that.

Definition Schema_examples (this : addr) (examples : JsVal) : M addr :=
  that ← clone this;
  assign that (with_base (set__examples (Some examples)));;
  mret that.

(** *** The modifiers of [ExtensibleSchema] *)

Definition ExtensibleSchema_description (this : addr) (d : string) : M addr :=
  that ← clone this;
  assign that (with_base (set__description (Some d)));;
  mret that.

Definition ExtensibleSchema_example (this : addr) (d : JsVal) : M addr :=
  that ← clone this;
  assign that (with_base (set__example d));;
  mret that.

(** The object that [new FixedSchema(schema, label)] leaves behind. *)
Definition FixedSchema_new (schema : Schema) (label : string) : Schema :=
  FixedSchema
    {| _description := None;
       _required := _required (base schema);
       _deprecated := _deprecated (base schema);
       _explode := _explode (base schema);
       _examples := None;
       _example := JUndefined |}
    schema (toSchemaName label).

(** [constructor(schema: Schema, label: string)] of [FixedSchema] *)
Definition FixedSchema_constructor (schema : addr) (label : string) : M addr :=
  s ← deref schema;
  this ← alloc (FixedSchema_new s label);
  modify (set_registeredFixedSchemas (fun l => l ++ [toSchemaName label]));;
  mret this.

Definition ExtensibleSchema_label (this : addr) (d : string) : M addr :=
  that ← FixedSchema_constructor this d;
  mret that.

(** *** The modifiers of the leaf classes *)

Definition StringField_min (this : addr) (d : Z) : M addr :=
  that ← clone this;
  assign that (set__minLength d);;
  mret that.

Definition StringField_max (this : addr) (d : Z) : M addr :=
  that ← clone this;
  assign that (set__maxLength d);;
  mret that.

Definition StringField_pattern (this : addr) (d : string) : M addr :=
  that ← clone this;
  assign that (set__regex d);;
  mret that.

Definition DateField_iso (this : addr) : M addr :=
  that ← clone this;
  assign that (set__format "date-time");;
  mret that.

Definition NumberField_min (this : addr) (d : Z) : M addr :=
  that ← clone this;
  assign that (set__min d);;
  mret that.

Definition NumberField_max (this : addr) (d : Z) : M addr :=
  that ← clone this;
  assign that (set__max d);;
  mret that.

Definition NumberField_default (this : addr) (d : Z) : M addr :=
  that ← clone this;
  assign that (set__default d);;
  mret that.

Definition ObjectField_additionalProperties (this : addr) (d : bool) : M addr :=
  that ← clone this;
  assign that (set__additionalProperties d);;
  mret that.

Definition ArrayField_items (this : addr) (d : addr) : M addr :=
  that ← clone this;
  items ← deref d;
  assign that (set__items items);;
  mret that.

(** *** The builders of [oas] *)

Module oas.

Definition string : M addr := alloc (StringField Base0 None None None).

Definition boolean : M addr := alloc (BooleanField Base0).

Definition date : M addr := alloc (DateField Base0 None).

Definition number : M addr := alloc (NumberField Base0 None None None).

Definition allow (values : list String.string) : M addr :=
  alloc (EnumField Base0 values).

(** [fields || {}] is an object in either case. *)
Definition object (fields : JsObj addr) : M addr :=
  fs ← mapM (fun kv => s ← deref (snd kv); mret (fst kv, s)) fields;
  alloc (ObjectField Base0 fs None).

Definition array : M addr :=
  alloc (ArrayField (set__explode (Some true) Base0) None).

(** [new ReferenceSchema(params.file, params.path)] *)
Definition ref (file path : String.string) : M addr :=
  this ← alloc (ReferenceSchema Base0 file path);
  modify (set_externalFiles (fun o => prop_assign o file ""));;
  mret this.

Definition oneOf (schemas : list addr) : M addr :=
  ss ← mapM deref schemas;
  alloc (OneOfSchema Base0 ss).

Definition anyOf (schemas : list addr) : M addr :=
  ss ← mapM deref schemas;
  alloc (AnyOfSchema Base0 ss).

End oas.

(** [node.toJSonSchema(options)] through a reference. *)
Definition serialize (options : Options) (node : addr) : M JsonSchema :=
  s ← deref node;
  ef ← gets externalFiles;
  lift (toJSonSchema ef options s).

(** The modifiers, as data. *)
Inductive Modifier : Type :=
| Required
| Deprecated
| Examples (examples : JsVal)
| Description (d : string)
| Example (d : JsVal)
| Label (d : string)
| StringMin (d : Z)
| StringMax (d : Z)
| Pattern (d : string)
| Iso
| NumberMin (d : Z)
| NumberMax (d : Z)
| Default (d : Z)
| AdditionalProperties (d : bool)
| Items (d : addr).

Definition apply (m : Modifier) (this : addr) : M addr :=
  match m with
  | Required => Schema_required this
  | Deprecated => Schema_deprecated this
  | Examples e => Schema_examples this e
  | Description d => ExtensibleSchema_description this d
  | Example d => ExtensibleSchema_example this d
  | Label d => ExtensibleSchema_label this d
  | StringMin d => StringField_min this d
  | StringMax d => StringField_max this d
  | Pattern d => StringField_pattern this d
  | Iso => DateField_iso this
  | NumberMin d => NumberField_min this d
  | NumberMax d => NumberField_max this d
  | Default d => NumberField_default this d
  | AdditionalProperties d => ObjectField_additionalProperties this d
  | Items d => ArrayField_items this d
  end.

(** ** Parameter and response projection *)

(** An object of class [ObjectField], where the source asks for one. *)
Record ObjectFieldObj : Type := mkObjectField {
  o_base : Base;
  o_fields : JsObj Schema;
  o_additionalProperties : option bool;
}.

Definition ObjectField_of (o : ObjectFieldObj) : Schema :=
  ObjectField (o_base o) (o_fields o) (o_additionalProperties o).

Inductive ParameterType : Type := PPath | PQuery | PHeader | PCookie.

Definition ParameterType_str (t : ParameterType) : string :=
  match t with
  | PPath => "path" | PQuery => "query" | PHeader => "header" | PCookie => "cookie"
  end.

(** [schema.getReferencedSchema()] when [schema instanceof FixedSchema] *)
Definition unwrap_fixed (s : Schema) : Schema :=
  match s with FixedSchema _ schema _ => schema | _ => s end.

Section Projection.
Variable externalFiles : JsObj string.
Variable options : Options.

(** The body of the [map] of [asParameterList], for one key. *)
Definition parameter_of (fields : JsObj Schema) (parameterType : ParameterType)
    (key : string) : Result JsVal :=
  match obj_get fields key with
  | Some field =>
      let fieldSchema := unwrap_fixed field in
      j ← toJSonSchema externalFiles options fieldSchema;
      let description := get j "description" in
      let schema := obj_rest ["description"; "example"; "required"] j in
      mret (JObj (obj_lit
        [ ("description", description);
          ("name", JStr key);
          ("in", JStr (ParameterType_str parameterType));
          ("explode", of_option JBool (_explode (base field)));
          ("required",
            match parameterType with
            | PPath => JBool true
            | _ => of_option JBool (_required (base field))
            end);
          ("schema", JObj schema) ]))
  | None => Throw "TypeError: not an object"
  end.

(** [ObjectField.asParameterList] *)
Definition ObjectField_asParameterList (this : ObjectFieldObj)
    (parameterType : ParameterType) : Result (list JsVal) :=
  let fields := o_fields this in
  mapM (parameter_of fields parameterType) (obj_keys fields).

(** [ObjectField.asResponseHeaders] *)
Definition ObjectField_asResponseHeaders (this : ObjectFieldObj)
  : Result (JsObj JsVal) :=
  let fields := o_fields this in
  let fieldNames := obj_keys fields in
  reduce
    (fun acc key =>
       match obj_get fields key with
       | Some field =>
           schema ← toJSonSchema externalFiles options field;
           mret (obj_set acc key
                   (JObj (obj_lit
                      [ ("schema", JObj (obj_lit [("type", get schema "type")]));
                        ("description", get schema "description") ])))
       | None => Throw "TypeError: not an object"
       end)
    fieldNames [].
End Projection.

(** ** Routes *)

Inductive Method : Type := GET | POST | PUT | PATCH | DELETE.

Definition toLowerCase (m : Method) : string :=
  match m with
  | GET => "get" | POST => "post" | PUT => "put" | PATCH => "patch"
  | DELETE => "delete"
  end.

Record SecurityRequirement : Type := mkSecurityRequirement {
  name : string;
  scopes : list string;
}.

Module RouteResponse.
Record t : Type := mk {
  statusCode : Z;
  description : string;
  schema : option Schema;
  headers : option ObjectFieldObj;
  examples : option JsVal;
}.
End RouteResponse.

Module Validate.
Record t : Type := mk {
  path : option ObjectFieldObj;
  query : option ObjectFieldObj;
  body : option Schema;
  headers : option ObjectFieldObj;
}.
End Validate.

Module DefinedRoute.
Record t : Type := mk {
  operationId : string;
  description : string;
  notes : option string;
  deprecated : option bool;
  method : Method;
  path : string;
  tags : option (list string);
  validate : option Validate.t;
  successResponse : RouteResponse.t;
  errorResponses : option (list RouteResponse.t);
  produces : option string;
  security : option (list SecurityRequirement);
  order : option Z;
}.
End DefinedRoute.

Module ReferencedRoute.
Record t : Type := mk {
  method : Method;
  path : string;
  order : option Z;
  (** [ref.file.toString()] *)
  ref_file : string;
  ref_path : string;
  deprecated : option bool;
}.
End ReferencedRoute.

Inductive Route : Type :=
| Defined (route : DefinedRoute.t)
| Referenced (route : ReferencedRoute.t).

Definition Route_order (route : Route) : option Z :=
  match route with
  | Defined r => DefinedRoute.order r
  | Referenced r => ReferencedRoute.order r
  end.

Definition Route_path (route : Route) : string :=
  match route with
  | Defined r => DefinedRoute.path r
  | Referenced r => ReferencedRoute.path r
  end.

Definition Route_method (route : Route) : Method :=
  match route with
  | Defined r => DefinedRoute.method r
  | Referenced r => ReferencedRoute.method r
  end.

Definition is_slash (c : ascii) : bool := Ascii.eqb c "/"%char.

(** The longest prefix without a slash. *)
Fixpoint segment (s : string) : string :=
  match s with
  | EmptyString => EmptyString
  | String c r => if is_slash c then EmptyString else String c (segment r)
  end.

(** [/\/([^\/]+)/.exec(path)?.[1]] *)
Fixpoint pathAsTag (path : string) : option string :=
  match path with
  | EmptyString => None
  | String c r =>
      if is_slash c then
        match segment r with
        | EmptyString => pathAsTag r
        | seg => Some seg
        end
      else pathAsTag r
  end.

(** [const securityToJsonSchema = (reqs) => [reqs.reduce(...)]] *)
Definition securityToJsonSchema (reqs : list SecurityRequirement) : JsVal :=
  JArr [ JObj (fold_left
                 (fun acc s => obj_set acc (name s) (JArr (map JStr (scopes s))))
                 reqs []) ].

Section Routes.
Variable externalFiles : JsObj string.
Variable options : Options.

(** [function toResponseSchema(response, options)] *)
Definition toResponseSchema (response : RouteResponse.t) : Result (JsObj JsVal) :=
  match RouteResponse.schema response with
  | Some schema =>
      headers ←
        match RouteResponse.headers response with
        | Some h =>
            v ← ObjectField_asResponseHeaders externalFiles options h;
            mret (JObj v)
        | None => mret JUndefined
        end;
      j ← toJSonSchema externalFiles options schema;
      mret (ignoreUndefined (obj_lit
        [ ("description", JStr (RouteResponse.description response));
          ("headers", headers);
          ("content", JObj (obj_lit
             [ ("application/json", JObj (obj_lit
                  [ ("schema", JObj j);
                    ("examples",
                      of_option id (RouteResponse.examples response)) ])) ])) ]))
  | None =>
      Ok (obj_lit [("description", JStr (RouteResponse.description response))])
  end.

(** [route.validate?.<member>?.asParameterList(<location>, options) || []] *)
Definition parameters_of (member : option ObjectFieldObj)
    (parameterType : ParameterType) : Result (list JsVal) :=
  match member with
  | Some o => ObjectField_asParameterList externalFiles options o parameterType
  | None => Ok []
  end.

(** The parameter list of a defined route. *)
Definition route_parameters (route : DefinedRoute.t) : Result (list JsVal) :=
  let validate := DefinedRoute.validate route in
  hs ← parameters_of (validate ≫= Validate.headers) PHeader;
  ps ← parameters_of (validate ≫= Validate.path) PPath;
  qs ← parameters_of (validate ≫= Validate.query) PQuery;
  mret (hs ++ ps ++ qs).

(** [const routeToJsonSchema = (route, options) => ...] *)
Definition routeToJsonSchema (route : Route) : Result JsonSchema :=
  match route with
  | Defined route =>
      let pathAsTag := pathAsTag (DefinedRoute.path route) in
      parameters ← route_parameters route;
      requestBody ←
        match DefinedRoute.validate route ≫= Validate.body with
        | Some body =>
            j ← toJSonSchema externalFiles options body;
            mret (JObj (obj_lit
              [ ("content", JObj (obj_lit
                   [ ("application/json", JObj (obj_lit
                        [ ("schema", JObj j);
                          ("examples", of_option id (_examples (base body))) ])) ])) ]))
        | None => mret JUndefined
        end;
      success ← toResponseSchema (DefinedRoute.successResponse route);
      errors ←
        reduce
          (fun acc response =>
             v ← toResponseSchema response;
             mret (obj_set acc (pretty (RouteResponse.statusCode response)) (JObj v)))
          (default [] (DefinedRoute.errorResponses route)) [];
      mret (ignoreUndefined (obj_lit
        [ ("summary", JStr (DefinedRoute.description route));
          ("operationId", JStr (DefinedRoute.operationId route));
          ("description", of_option JStr (DefinedRoute.notes route));
          ("deprecated", of_option JBool (DefinedRoute.deprecated route));
          ("parameters",
            match parameters with
            | [] => JUndefined
            | _ => JArr parameters
            end);
          ("requestBody", requestBody);
          ("tags",
            match DefinedRoute.tags route with
            | Some tags => JArr (map JStr tags)
            | None => of_option (fun t => JArr [JStr t]) pathAsTag
            end);
          ("security", of_option securityToJsonSchema (DefinedRoute.security route));
          ("responses", JObj
             (obj_assign
                (obj_lit
                   [ (pretty (RouteResponse.statusCode
                                (DefinedRoute.successResponse route)),
                      JObj success) ])
                errors));
          ("x-order", of_option JNum (DefinedRoute.order route)) ]))
  | Referenced route =>
      let filename := ReferencedRoute.ref_file route in
      Ok (ignoreUndefined (obj_lit
        [ ("$ref", JStr (filename +:+ "#" +:+ ReferencedRoute.ref_path route));
          ("deprecated", of_option JBool (ReferencedRoute.deprecated route)) ]))
  end.

(** The [reduce] of [makeSchema] that builds [paths].  A path that names
    a member of [Object.prototype] finds that member instead of a path
    item: the operation is stored on it and [paths] gets nothing.  The
    change of the built-in object, and what the libraries do once it is
    changed, are not described: the statements on [paths] are for paths
    that name no such member. *)
Definition paths_step (acc : JsObj (JsObj JsVal)) (route : Route)
  : Result (JsObj (JsObj JsVal)) :=
  match prop_get acc (Route_path route) with
  | Own path =>
      v ← routeToJsonSchema route;
      mret (obj_set acc (Route_path route)
              (obj_set path (toLowerCase (Route_method route)) (JObj v)))
  | Inherited _ =>
      _ ← routeToJsonSchema route;
      mret acc
  | Missing =>
      v ← routeToJsonSchema route;
      mret (obj_set acc (Route_path route)
              (obj_set [] (toLowerCase (Route_method route)) (JObj v)))
  end.

Definition make_paths (sortedRoutes : list Route) : Result (JsObj (JsObj JsVal)) :=
  reduce paths_step sortedRoutes [].
End Routes.

(** ** Sorting the routes *)

Section Sort.
Context {A : Type}.
Variable compareFn : A -> A -> Z.

(** [x], which stood before every element of the sorted [l], goes in
    front of the first element that it does not follow. *)
Fixpoint sort_insert (x : A) (l : list A) : list A :=
  match l with
  | [] => [x]
  | y :: r => if compareFn x y <=? 0 then x :: y :: r else y :: sort_insert x r
  end.

(** [Array.prototype.sort(compareFn)]: a stable sort. *)
Definition Array_sort (l : list A) : list A := foldr sort_insert [] l.
End Sort.

(** [a.order == undefined ? 10000 : a.order] *)
Definition order_key (route : Route) : Z :=
  match Route_order route with
  | None => 10000
  | Some order => order
  end.

(** [const sortedRoutes = [...params.routes]; sortedRoutes.sort(...)] *)
Definition sortedRoutes (routes : list Route) : list Route :=
  Array_sort (fun a b => order_key a - order_key b) routes.

(** ** Component collector and duplicate labels *)

(** [function collectRefSchemasForSchema(schema)]; the result lists the
    [FixedSchema] objects met. *)
Fixpoint collectRefSchemasForSchema (schema : Schema) : list Schema :=
  match schema with
  | FixedSchema _ inner _ => [schema] ++ collectRefSchemasForSchema inner
  | ObjectField _ fields _ =>
      (fix go (fs : JsObj Schema) : list Schema :=
         match fs with
         | [] => []
         | (_, f) :: r => collectRefSchemasForSchema f ++ go r
         end) fields
  | ArrayField _ (Some items) => collectRefSchemasForSchema items
  | _ => []
  end.

Definition collect_optional (schema : option Schema) : list Schema :=
  match schema with
  | Some s => collectRefSchemasForSchema s
  | None => []
  end.

(** [function collectRefSchemasForRoute(route)] *)
Definition collectRefSchemasForRoute (route : Route) : list Schema :=
  match route with
  | Defined r =>
      match DefinedRoute.validate r with
      | Some validate =>
          let schemas : list (option Schema) :=
            [ ObjectField_of <$> Validate.path validate;
              ObjectField_of <$> Validate.headers validate;
              ObjectField_of <$> Validate.query validate;
              Validate.body validate;
              RouteResponse.schema (DefinedRoute.successResponse r) ]
            ++ map RouteResponse.schema (default [] (DefinedRoute.errorResponses r)) in
          flat_map collect_optional schemas
      | None => []
      end
  | Referenced _ => []
  end.

(** [function toSchemaObject(schemas, options)] *)
Definition toSchemaObject (externalFiles : JsObj string) (options : Options)
    (schemas : list Schema) : Result (JsObj JsVal) :=
  reduce
    (fun acc schema =>
       match schema with
       | FixedSchema _ inner label =>
           c ← toComponent externalFiles options inner label;
           mret (obj_assign acc c)
       | _ => Throw "TypeError: schema.toComponent is not a function"
       end)
    schemas [].

(** [(acc[s] || 0) + 1] on the counting object of
    [getDuplicateFixedSchemas].  An inherited member is truthy and [+]
    appends to its text. *)
Definition count_up (acc : JsObj JsVal) (s : string) : JsVal :=
  match prop_get acc s with
  | Own (JNum n) => if n =? 0 then JNum 1 else JNum (n + 1)
  | Own (JStr t) => if String.eqb t "" then JNum 1 else JStr (t +:+ "1")
  | Own _ => JNum 1
  | Inherited name => JStr (builtin_toString name +:+ "1")
  | Missing => JNum 1
  end.

(** [schemaCount[s] > 1].  A string in the counting object is the text of
    a built-in followed by ones, which is not a numeral: the comparison
    is with [NaN]. *)
Definition more_than_one (v : JsVal) : bool :=
  match v with
  | JNum n => 1 <? n
  | _ => false
  end.

(** [FixedSchema.getDuplicateFixedSchemas], on the registry. *)
Definition getDuplicateFixedSchemas (registeredFixedSchemas : list string)
  : list string :=
  let schemaCount :=
    fold_left (fun acc s => obj_set acc s (count_up acc s))
              registeredFixedSchemas [] in
  List.filter (fun s => more_than_one (get schemaCount s)) (obj_keys schemaCount).

(** ** The document assembler *)

Inductive NormalizeType : Type := bundle | dereference.

Inductive Source : Type :=
| source_schema (schema : JsVal)
| source_file (filename : string).

Record Transformation : Type := mkTransformation {
  jsonPath : string;
  fn : JsVal -> JsVal;
}.

Inductive Output : Type :=
| stdout
| file (filename : string)
| none.

Record Params : Type := mkParams {
  openapiVersion : string;
  info : JsVal;
  servers : JsVal;
  tags : list string;
  routes : list Route;
  security : option (list SecurityRequirement);
  securitySchemes : JsVal;
  transformations : option (list Transformation);
  output : Output;
}.

(** The libraries and the platform.  Those that look at the file system
    or draw random bytes are given the effects so far. *)
Record Collaborators : Type := mkCollaborators {
  os_tmpdir : string;
  path_join : string -> string -> string;
  fs_mkdtemp : string -> list Effect -> Result string;
  fs_writeFile : string -> string -> list Effect -> Result unit;
  RefParser : NormalizeType -> string -> list Effect -> Result JsVal;
  JSON_stringify : JsVal -> string;
  JSON_parse : string -> JsVal;
  prettier_format : string -> string;
  jp_apply : JsVal -> string -> (JsVal -> JsVal) -> Result JsVal;
  crypto_randomBytes_hex : list Effect -> string;
}.

(** [const getFilename = (path) => path.substring(path.lastIndexOf("/") + 1)] *)
Fixpoint getFilename_from (current path : string) : string :=
  match path with
  | EmptyString => current
  | String c r =>
      if is_slash c then getFilename_from r r else getFilename_from current r
  end.

Definition getFilename (path : string) : string := getFilename_from path path.

(** [Array.prototype.join(",")], which a template literal applies to an
    array. *)
Fixpoint join (l : list string) : string :=
  match l with
  | [] => ""
  | [s] => s
  | s :: r => s +:+ "," +:+ join r
  end.

(** [[x0, x1, ...].map((x, i) => ...)]: the elements with their indices. *)
Definition indexed {A : Type} (l : list A) : list (nat * A) :=
  combine (seq 0 (length l)) l.

Section Build.
Variable env : Collaborators.

Definition writeFile (filename data : string) : M unit :=
  trace ← gets effects;
  lift (fs_writeFile env filename data trace);;
  emit (WriteFile filename data).

(** [const prettify = (data) => prettier.format(data, { parser: "json" })] *)
Definition prettify (data : string) : string := prettier_format env data.

(** [const randomFilename = (params) => ...], with [params.dir] given *)
Definition randomFilename (dir prefix : string) : M string :=
  trace ← gets effects;
  let filename := prefix +:+ "-" +:+ crypto_randomBytes_hex env trace in
  mret (path_join env dir filename).

(** [const normalizeSchema = async (params) => ...] *)
Definition normalizeSchema (tempDir : string) (type : NormalizeType)
    (source : Source) (target : option string) : M string :=
  sourceFilename ←
    match source with
    | source_file filename => mret filename
    | source_schema schema =>
        sourceFilename ← randomFilename tempDir "pre-normalize";
        writeFile sourceFilename (JSON_stringify env schema);;
        mret sourceFilename
    end;
  trace ← gets effects;
  normalizedSchema ← lift (RefParser env type sourceFilename trace);
  let finalSchema := prettify (JSON_stringify env normalizedSchema) in
  match target with
  | Some filename => writeFile filename finalSchema
  | None => mret tt
  end;;
  mret finalSchema.

(** [for each x of l: body x], stopping at the first [throw]. *)
Fixpoint forEach {A : Type} (body : A -> M unit) (l : list A) : M unit :=
  match l with
  | [] => mret tt
  | x :: r => body x;; forEach body r
  end.

(** [ReferenceSchema.dereferenceExternalSchemas].  The files are
    resolved one after the other, in the order of the keys: each of the
    concurrent tasks of the source writes its own target file and its own
    key, so that the joined result of a build in which every task
    succeeds does not depend on their interleaving.  When a task fails
    the call throws here as in the source, but the source lets the other
    tasks go on, and they may write after the caller has handled the
    failure; those late effects are not described, and the statements on
    the order of the effects assume that every task succeeds. *)
Definition dereferenceExternalSchemas (routes : list Route) (tempDir : string)
  : M unit :=
  forEach
    (fun route =>
       match route with
       | Referenced r =>
           modify (set_externalFiles
                     (fun o => prop_assign o (ReferencedRoute.ref_file r) ""))
       | Defined _ => mret tt
       end)
    routes;;
  keys ← gets (fun w => obj_keys (externalFiles w));
  forEach
    (fun ix =>
       let i := fst ix in
       let externalFilePath := snd ix in
       let targetFilename :=
         path_join env tempDir
           ("spec-" +:+ pretty i +:+ "-" +:+ getFilename externalFilePath) in
       normalizeSchema tempDir dereference (source_file externalFilePath)
         (Some targetFilename);;
       modify (set_externalFiles
                 (fun o => prop_assign o externalFilePath targetFilename)))
    (indexed keys).

(** [const withTempDir = async (fn) => ...].  The removal is started and
    not awaited, and its failure is dropped. *)
Definition withTempDir {T : Type} (fn : string -> M T) : M T :=
  trace ← gets effects;
  dir ← lift (fs_mkdtemp env (path_join env (os_tmpdir env) "oas-dsl") trace);
  emit (MkDir dir);;
  try_finally (fn dir) (emit (RmDir dir)).

(** The document object that [makeSchema] assembles. *)
Definition document (params : Params) (options : Options)
    (paths : JsObj (JsObj JsVal)) (schemas : JsObj JsVal) : JsVal :=
  JObj (obj_lit
    [ ("openapi", JStr (openapiVersion params));
      ("security", of_option securityToJsonSchema (security params));
      ("info", info params);
      ("tags", JArr (map JStr (tags params)));
      ("paths", JObj (map (fun kv => (fst kv, JObj (snd kv))) paths));
      ("servers", servers params);
      ("components", JObj (obj_lit
         [ ("securitySchemes", securitySchemes params);
           ("schemas", JObj schemas) ])) ]).

(** [async function makeSchema(params, options)] *)
Definition makeSchema (params : Params) (options : Options) : M unit :=
  withTempDir (fun tempDir =>
    match type options with
    | referenced =>
        registered ← gets registeredFixedSchemas;
        let duplicates := getDuplicateFixedSchemas registered in
        match duplicates with
        | [] => mret tt
        | _ => throw ("Found duplicate fixed schemas: " +:+ join duplicates)
        end
    | flat => mret tt
    end;;
    dereferenceExternalSchemas (routes params) tempDir;;
    let sortedRoutes := sortedRoutes (routes params) in
    ef ← gets externalFiles;
    paths ← lift (make_paths ef options sortedRoutes);
    schemas ←
      match type options with
      | referenced =>
          lift (toSchemaObject ef options
                  (flat_map collectRefSchemasForRoute (routes params)))
      | flat => mret []
      end;
    let schema := document params options paths schemas in
    finalSchema ←
      normalizeSchema tempDir
        (match type options with flat => dereference | referenced => bundle end)
        (source_schema schema)
        (match output params with
         | file filename => Some filename
         | _ => None
         end);
    finalSchema ←
      match transformations params with
      | Some ts =>
          let obj := JSON_parse env finalSchema in
          obj ← lift (reduce (fun o t => jp_apply env o (jsonPath t) (fn t)) ts obj);
          mret (prettify (JSON_stringify env obj))
      | None => mret finalSchema
      end;
    match output params with
    | stdout => emit (ConsoleLog finalSchema)
    | _ => mret tt
    end).
End Build.

(** * Notions and examples used in the statements *)

(** A value other than [undefined]. *)
Definition defined (v : JsVal) : Prop := v <> JUndefined.

(** The classes that extend [ExtensibleSchema]. *)
Definition extensible (s : Schema) : bool :=
  match s with
  | StringField _ _ _ _ | BooleanField _ | DateField _ _ | NumberField _ _ _ _
  | EnumField _ _ | ObjectField _ _ _ | ArrayField _ _ => true
  | _ => false
  end.


(** The [required] member of the descriptor of a field at a location. *)
Definition descriptor_required (parameterType : ParameterType) (field : Schema)
  : JsVal :=
  match parameterType with
  | PPath => JBool true
  | _ => of_option JBool (_required (base field))
  end.

(** [GET /widgets/{id}] with a header, a path and a query parameter. *)
Definition widget_route : DefinedRoute.t :=
  {| DefinedRoute.operationId := "getWidget";
     DefinedRoute.description := "Get a widget";
     DefinedRoute.notes := None;
     DefinedRoute.deprecated := None;
     DefinedRoute.method := GET;
     DefinedRoute.path := "/widgets/{id}";
     DefinedRoute.tags := None;
     DefinedRoute.validate :=
       Some {| Validate.path :=
                 Some {| o_base := Base0;
                         o_fields :=
                           [("id", StringField (set__required (Some true) Base0)
                                     None None None)];
                         o_additionalProperties := None |};
               Validate.query :=
                 Some {| o_base := Base0;
                         o_fields := [("limit", NumberField Base0 None None None)];
                         o_additionalProperties := None |};
               Validate.body := None;
               Validate.headers :=
                 Some {| o_base := Base0;
                         o_fields := [("x-trace", StringField Base0 None None None)];
                         o_additionalProperties := None |} |};
     DefinedRoute.successResponse :=
       {| RouteResponse.statusCode := 200;
          RouteResponse.description := "The widget";
          RouteResponse.schema := Some (ObjectField Base0 [] None);
          RouteResponse.headers := None;
          RouteResponse.examples := None |};
     DefinedRoute.errorResponses := None;
     DefinedRoute.produces := None;
     DefinedRoute.security := None;
     DefinedRoute.order := None |}.

(** A path as OpenAPI has them: it starts with a slash. *)
Definition starts_with_slash (p : string) : bool :=
  match p with
  | String c _ => is_slash c
  | EmptyString => false
  end.

(** The distinct elements of a list, each at its first occurrence. *)
Definition add_key (acc : list string) (p : string) : list string :=
  if existsb (String.eqb p) acc then acc else acc ++ [p].

Definition first_occurrences (l : list string) : list string :=
  fold_left add_key l [].

(** A referenced route with a path and an order, for the examples. *)
Definition ref_route (path : string) (order : option Z) : Route :=
  Referenced
    {| ReferencedRoute.method := GET;
       ReferencedRoute.path := path;
       ReferencedRoute.order := order;
       ReferencedRoute.ref_file := "api.json";
       ReferencedRoute.ref_path := "/paths/x";
       ReferencedRoute.deprecated := None |}.

(** Collaborators for the examples: a file system that takes every write,
    a resolver that finds an empty document, a printer that prints one. *)
Definition test_env : Collaborators :=
  {| os_tmpdir := "/tmp";
     path_join := fun a b => a +:+ "/" +:+ b;
     fs_mkdtemp := fun prefix _ => Ok (prefix +:+ "XXXXXX");
     fs_writeFile := fun _ _ _ => Ok tt;
     RefParser := fun _ _ _ => Ok (JObj []);
     JSON_stringify := fun _ => "{}";
     JSON_parse := fun _ => JObj [];
     prettier_format := fun data => data;
     jp_apply := fun obj _ _ => Ok obj;
     crypto_randomBytes_hex := fun _ => "a1b2c3" |}.

(** A document with the given routes, written to [openapi.json]. *)
Definition test_params (routes : list Route) : Params :=
  {| openapiVersion := "3.0.0";
     info := JObj [("title", JStr "Test"); ("version", JStr "1")];
     servers := JArr [JObj [("url", JStr "http://localhost")]];
     tags := [];
     routes := routes;
     security := None;
     securitySchemes := JUndefined;
     transformations := None;
     output := file "openapi.json" |}.

(** A route whose body has the two given fields. *)
Definition body_route (a b : Schema) : Route :=
  Defined
    {| DefinedRoute.operationId := "create";
       DefinedRoute.description := "Create";
       DefinedRoute.notes := None;
       DefinedRoute.deprecated := None;
       DefinedRoute.method := POST;
       DefinedRoute.path := "/things";
       DefinedRoute.tags := None;
       DefinedRoute.validate :=
         Some {| Validate.path := None; Validate.query := None;
                 Validate.body := Some (ObjectField Base0 [("a", a); ("b", b)] None);
                 Validate.headers := None |};
       DefinedRoute.successResponse :=
         {| RouteResponse.statusCode := 201;
            RouteResponse.description := "Created";
            RouteResponse.schema := None;
            RouteResponse.headers := None;
            RouteResponse.examples := None |};
       DefinedRoute.errorResponses := None;
       DefinedRoute.produces := None;
       DefinedRoute.security := None;
       DefinedRoute.order := None |}.

(** Two nodes of different content under one label, used in one route,
    and the build of the document. *)
Definition build_with_label (label : string) (options : Options) : M unit :=
  s ← oas.string;
  a ← ExtensibleSchema_label s label;
  n ← oas.number;
  b ← ExtensibleSchema_label n label;
  sa ← deref a;
  sb ← deref b;
  makeSchema test_env (test_params [body_route sa sb]) options.

(** How often [s] was registered. *)
Definition occurrences (s : string) (l : list string) : nat :=
  length (List.filter (String.eqb s) l).

(** What the counting object holds for a label registered [n] times. *)
Definition count_value (n : nat) : option JsVal :=
  match n with
  | O => None
  | S _ => Some (JNum (Z.of_nat n))
  end.

(** [schemaCount] of [getDuplicateFixedSchemas] *)
Definition schemaCount (registered : list string) : JsObj JsVal :=
  fold_left (fun acc s => obj_set acc s (count_up acc s)) registered [].

(** The world with another registry. *)
Definition with_registered (r : list string) (w : World) : World :=
  set_registeredFixedSchemas (fun _ => r) w.

(** [m] neither reads nor writes the registry. *)
Definition ignores_registry {A : Type} (m : M A) : Prop :=
  forall w r,
    m (with_registered r w) = (fst (m w), with_registered r (snd (m w))).

(** The target file of the [i]-th key. *)
Definition targetFilename_of (env : Collaborators) (tempDir : string) (i : nat)
    (key : string) : string :=
  path_join env tempDir ("spec-" +:+ pretty i +:+ "-" +:+ getFilename key).

(** The second loop of [dereferenceExternalSchemas]. *)
Definition resolve_all (env : Collaborators) (tempDir : string)
    (keys : list (nat * string)) : M unit :=
  forEach
    (fun ix =>
       normalizeSchema env tempDir dereference (source_file (snd ix))
         (Some (targetFilename_of env tempDir (fst ix) (snd ix)));;
       modify (set_externalFiles
                 (fun o => prop_assign o (snd ix)
                             (targetFilename_of env tempDir (fst ix) (snd ix)))))
    keys.

(** Every character of [s] passes the test [p]. *)
Fixpoint all_chars (p : ascii -> bool) (s : string) : bool :=
  match s with
  | EmptyString => true
  | String c r => p c && all_chars p r
  end.

(** No slash in [s]. *)
Definition no_slash (s : string) : bool := all_chars (fun c => negb (is_slash c)) s.

(** The entry of [asResponseHeaders] for a field with the fragment [frag]. *)
Definition header_of (frag : JsonSchema) : JsVal :=
  JObj [ ("schema", JObj [("type", get frag "type")]);
         ("description", get frag "description") ].

(** The keys that [asParameterList] takes out of the schema of a parameter. *)
Definition parameter_stripped : list string := ["description"; "example"; "required"].

(** An object of class [FixedSchema]. *)
Definition is_fixed (s : Schema) : bool :=
  match s with FixedSchema _ _ _ => true | _ => false end.

(** A labelled node whose component has the key [key]. *)
Definition defines (key : string) (s : Schema) : bool :=
  match s with
  | FixedSchema _ _ label => String.eqb (toSchemaName label) key
  | _ => false
  end.

(** The operation under a path and a method of [paths], if any. *)
Definition operation_at (paths : JsObj (JsObj JsVal)) (path method : string)
  : option JsVal :=
  match obj_get paths path with
  | Some item => obj_get item method
  | None => None
  end.

(** A route for the path [path] and the method [method]. *)
Definition serves (path : string) (method : Method) (route : Route) : bool :=
  (String.eqb (Route_path route) path
   && String.eqb (toLowerCase (Route_method route)) (toLowerCase method))%bool.

(** A write to a file. *)
Definition is_write (e : Effect) : bool :=
  match e with WriteFile _ _ => true | _ => false end.

(** [m] only appends to the effects, and appends nothing but writes. *)
Definition only_writes {A : Type} (m : M A) : Prop :=
  forall w,
    exists l, effects (snd (m w)) = effects w ++ l /\ forallb is_write l = true.

(** What a build has put on the console: the document, once, if it was
    asked to and has returned; nothing otherwise. *)
Definition printed (out : Output) (result : Result unit) (log : list Effect)
  : Prop :=
  match log with
  | [] => out = stdout -> exists e, result = Throw e
  | [ConsoleLog _] => out = stdout /\ result = Ok tt
  | _ => False
  end.

(** [m] writes files, then prints as [printed] says. *)
Definition writes_then_prints (out : Output) (m : M unit) : Prop :=
  forall w,
    exists writes log,
      effects (snd (m w)) = effects w ++ writes ++ log
      /\ forallb is_write writes = true
      /\ printed out (fst (m w)) log.

(** The document of [test_params], printed instead of written. *)
Definition console_params (routes : list Route) : Params :=
  {| openapiVersion := "3.0.0";
     info := JObj [("title", JStr "Test"); ("version", JStr "1")];
     servers := JArr [JObj [("url", JStr "http://localhost")]];
     tags := [];
     routes := routes;
     security := None;
     securitySchemes := JUndefined;
     transformations := None;
     output := stdout |}.

(** The same build without [transformations]. *)
Definition without_transformations (params : Params) : Params :=
  {| openapiVersion := openapiVersion params;
     info := info params;
     servers := servers params;
     tags := tags params;
     routes := routes params;
     security := security params;
     securitySchemes := securitySchemes params;
     transformations := None;
     output := output params |}.

(** The second run ends in the world of the first, with its result or, if
    the first has thrown, possibly with a return. *)
Definition same_world_fewer_throws (a b : Result unit * World) : Prop :=
  snd a = snd b
  /\ (fst a = fst b \/ (fst b = Ok tt /\ exists e, fst a = Throw e)).

(** A response for the status code [code]. *)
Definition answers (code : Z) (response : RouteResponse.t) : bool :=
  RouteResponse.statusCode response =? code.

(** A number that is an integer written in decimal digits by its
    conversion to a property key: within the safe integers, where every
    integer is a number and none is written with an exponent. *)
Definition safe_integer (n : Z) : bool :=
  (- 9007199254740991 <=? n) && (n <=? 9007199254740991).

(** A route whose last error response repeats the status code of its
    success response. *)
Definition repeated_code_route : DefinedRoute.t :=
  {| DefinedRoute.operationId := "deleteWidget";
     DefinedRoute.description := "Delete a widget";
     DefinedRoute.notes := None;
     DefinedRoute.deprecated := None;
     DefinedRoute.method := DELETE;
     DefinedRoute.path := "/widgets/{id}";
     DefinedRoute.tags := None;
     DefinedRoute.validate := None;
     DefinedRoute.successResponse :=
       {| RouteResponse.statusCode := 200;
          RouteResponse.description := "Deleted";
          RouteResponse.schema := None;
          RouteResponse.headers := None;
          RouteResponse.examples := None |};
     DefinedRoute.errorResponses :=
       Some [ {| RouteResponse.statusCode := 404;
                 RouteResponse.description := "Not found";
                 RouteResponse.schema := None;
                 RouteResponse.headers := None;
                 RouteResponse.examples := None |};
              {| RouteResponse.statusCode := 200;
                 RouteResponse.description := "Already deleted";
                 RouteResponse.schema := None;
                 RouteResponse.headers := None;
                 RouteResponse.examples := None |} ];
     DefinedRoute.produces := None;
     DefinedRoute.security := None;
     DefinedRoute.order := None |}.

(** The responses that a route declares: the success response, then the
    error responses. *)
Definition declared_responses (route : DefinedRoute.t) : list RouteResponse.t :=
  DefinedRoute.successResponse route :: default [] (DefinedRoute.errorResponses route).

(** * Properties *)

Ltac ok_inv H := injection H as <-.

(** ** Objects *)

Section ObjectFacts.
Context {V : Type}.
Implicit Types (o : JsObj V) (k : string) (v : V).

Lemma obj_get_app o o' k :
  obj_get (o ++ o') k =
  match obj_get o k with Some x => Some x | None => obj_get o' k end.
Proof.
  induction o as [|[k0 v0] o IH]; simpl; [reflexivity|].
  destruct (String.eqb k k0); [reflexivity | apply IH].
Qed.

Lemma obj_get_replace o k v k' :
  obj_get (obj_replace o k v) k' =
  if String.eqb k' k then (if obj_has o k then Some v else None)
  else obj_get o k'.
Proof.
  unfold obj_has.
  induction o as [|[k0 v0] o IH]; simpl.
  - destruct (String.eqb k' k); reflexivity.
  - destruct (String.eqb_spec k k0) as [->|Hk]; simpl.
    + destruct (String.eqb_spec k' k0); reflexivity.
    + rewrite IH.
      destruct (String.eqb_spec k' k0) as [->|Hk'].
      * destruct (String.eqb_spec k0 k); [congruence | reflexivity].
      * reflexivity.
Qed.

Lemma obj_get_insert_index o i k v k' :
  obj_get o k = None ->
  obj_get (obj_insert_index o i k v) k' =
  if String.eqb k' k then Some v else obj_get o k'.
Proof.
  induction o as [|[k0 v0] o IH]; simpl; intros Hk.
  - reflexivity.
  - destruct (String.eqb_spec k k0) as [->|Hne]; [discriminate|].
    destruct (is_array_index k0) as [j|]; [destruct (j <? i)%N|]; simpl;
      try reflexivity.
    rewrite (IH Hk).
    destruct (String.eqb_spec k' k0) as [->|]; [|reflexivity].
    destruct (String.eqb_spec k0 k); [congruence | reflexivity].
Qed.

(** Reading after [obj_set]. *)
Lemma obj_get_set o k v k' :
  obj_get (obj_set o k v) k' =
  if String.eqb k' k then Some v else obj_get o k'.
Proof.
  unfold obj_set.
  destruct (obj_has o k) eqn:Hhas.
  - rewrite obj_get_replace, Hhas. reflexivity.
  - assert (Hk : obj_get o k = None).
    { unfold obj_has in Hhas. destruct (obj_get o k); [discriminate | reflexivity]. }
    destruct (is_array_index k) as [i|].
    + apply obj_get_insert_index, Hk.
    + rewrite obj_get_app. simpl.
      destruct (String.eqb_spec k' k) as [->|].
      * rewrite Hk. reflexivity.
      * destruct (obj_get o k'); reflexivity.
Qed.

Lemma obj_get_assign o acc k :
  obj_get (obj_assign acc o) k =
  match obj_get (rev o) k with Some x => Some x | None => obj_get acc k end.
Proof.
  unfold obj_assign. revert acc.
  induction o as [|[k0 v0] o IH]; intros acc; simpl; [reflexivity|].
  rewrite IH, obj_get_app, obj_get_set. simpl.
  destruct (obj_get (rev o) k); [reflexivity|].
  destruct (String.eqb k k0); reflexivity.
Qed.

Lemma obj_get_In o k v : obj_get o k = Some v -> In (k, v) o.
Proof.
  induction o as [|[k0 v0] o IH]; simpl; [discriminate|].
  destruct (String.eqb_spec k k0) as [->|]; intros H.
  - injection H as ->. left. reflexivity.
  - right. apply IH, H.
Qed.

Lemma obj_get_keys o k : In k (obj_keys o) <-> obj_get o k <> None.
Proof.
  unfold obj_keys.
  induction o as [|[k0 v0] o IH]; simpl.
  - split; [tauto | congruence].
  - destruct (String.eqb_spec k k0) as [->|Hne].
    + split; [discriminate | auto].
    + rewrite <- IH. split; [intros [?|?]; [congruence | assumption] | auto].
Qed.

(** With distinct keys, as every object has them, visiting the properties
    in order is visiting [Object.keys(o)] and reading [o[key]] for each. *)
Lemma keys_then_lookup o :
  List.NoDup (obj_keys o) ->
  map (fun key => (key, obj_get o key)) (obj_keys o)
  = map (fun kv => (fst kv, Some (snd kv))) o.
Proof.
  unfold obj_keys.
  induction o as [|[k0 v0] o IH]; simpl; intros Hnd; [reflexivity|].
  inversion Hnd as [|? ? Hnotin Hrest]; subst.
  rewrite String.eqb_refl. f_equal.
  rewrite <- (IH Hrest). apply map_ext_in. intros key Hkey.
  destruct (String.eqb_spec key k0) as [E|_]; [subst; contradiction | reflexivity].
Qed.

(** What [obj_set] keeps of a property of the values. *)
Lemma Forall_obj_replace (P : V -> Prop) o k v :
  Forall P (obj_values o) -> P v -> Forall P (obj_values (obj_replace o k v)).
Proof.
  unfold obj_values. intros Ho Hv.
  induction o as [|[k0 v0] o IH]; simpl; [constructor|].
  inversion Ho; subst.
  destruct (String.eqb k k0); simpl; constructor; auto.
Qed.

Lemma Forall_obj_insert_index (P : V -> Prop) o i k v :
  Forall P (obj_values o) -> P v ->
  Forall P (obj_values (obj_insert_index o i k v)).
Proof.
  unfold obj_values. intros Ho Hv.
  induction o as [|[k0 v0] o IH]; simpl; [repeat constructor; exact Hv|].
  inversion Ho; subst.
  destruct (is_array_index k0) as [j|]; [destruct (j <? i)%N|]; simpl;
    repeat constructor; auto.
Qed.

Lemma Forall_obj_set (P : V -> Prop) o k v :
  Forall P (obj_values o) -> P v -> Forall P (obj_values (obj_set o k v)).
Proof.
  intros Ho Hv. unfold obj_set.
  destruct (obj_has o k); [apply Forall_obj_replace; assumption|].
  destruct (is_array_index k).
  - apply Forall_obj_insert_index; assumption.
  - unfold obj_values in *. rewrite map_app. apply Forall_app. split; [assumption|].
    repeat constructor. exact Hv.
Qed.
End ObjectFacts.

Lemma is_undefined_false v : is_undefined v = false -> defined v.
Proof. destruct v; simpl; unfold defined; congruence. Qed.

(** [ignoreUndefined] leaves no key bound to [undefined]... *)
Lemma ignoreUndefined_defined filters :
  Forall defined (obj_values (ignoreUndefined filters)).
Proof.
  unfold ignoreUndefined.
  assert (H : Forall defined (obj_values ([] : JsObj JsVal))) by constructor.
  revert H. generalize ([] : JsObj JsVal). generalize (obj_keys filters).
  intros ks. induction ks as [|key ks IH]; intros acc Hacc; simpl; [exact Hacc|].
  apply IH.
  destruct (is_undefined (get filters key)) eqn:E; [exact Hacc|].
  apply Forall_obj_set; [exact Hacc | apply is_undefined_false, E].
Qed.

(** ... and keeps every other key with its value. *)
Lemma obj_get_ignoreUndefined filters k :
  obj_get (ignoreUndefined filters) k =
  match obj_get filters k with
  | Some v => if is_undefined v then None else Some v
  | None => None
  end.
Proof.
  unfold ignoreUndefined.
  assert (Hgen : forall ks acc,
    obj_get
      (fold_left
         (fun acc key =>
            if is_undefined (get filters key) then acc
            else obj_set acc key (get filters key)) ks acc) k =
    if (existsb (String.eqb k) ks && negb (is_undefined (get filters k)))%bool
    then Some (get filters k) else obj_get acc k).
  { intros ks. induction ks as [|key ks IH]; intros acc; simpl; [reflexivity|].
    rewrite IH.
    destruct (String.eqb_spec k key) as [->|Hne]; simpl.
    - destruct (is_undefined (get filters key)) eqn:E; simpl.
      + rewrite andb_false_r. reflexivity.
      + rewrite andb_true_r. rewrite obj_get_set, String.eqb_refl.
        destruct (existsb (String.eqb key) ks); reflexivity.
    - destruct (existsb (String.eqb k) ks && negb (is_undefined (get filters k)))%bool;
        [reflexivity|].
      destruct (is_undefined (get filters key)); [reflexivity|].
      rewrite obj_get_set.
      destruct (String.eqb_spec k key); [congruence | reflexivity]. }
  rewrite Hgen. simpl. unfold get.
  destruct (obj_get filters k) as [v|] eqn:E.
  - assert (Hin : existsb (String.eqb k) (obj_keys filters) = true).
    { apply existsb_exists. exists k. split; [|apply String.eqb_refl].
      apply obj_get_keys. congruence. }
    rewrite Hin. simpl. destruct (is_undefined v); reflexivity.
  - simpl. rewrite andb_false_r. reflexivity.
Qed.

(** ** Serialization *)

Section SerializeFacts.
Variable externalFiles : JsObj string.
Variable options : Options.

Lemma toJSonSchema_ObjectField b fields ap :
  toJSonSchema externalFiles options (ObjectField b fields ap) =
  match fields_toJSonSchema externalFiles options fields with
  | Ok props =>
      Ok (ExtensibleSchema_toJSonSchema b (ObjectField_ownFields b fields ap props))
  | Throw e => Throw e
  end.
Proof.
  simpl.
  match goal with
  | |- match ?f fields with _ => _ end = _ =>
      assert (E : forall fs, f fs = fields_toJSonSchema externalFiles options fs)
  end.
  { induction fs as [|[key f] fs IH]; simpl; [reflexivity|].
    rewrite IH. reflexivity. }
  rewrite E. reflexivity.
Qed.

Lemma toJSonSchema_OneOfSchema b schemas :
  toJSonSchema externalFiles options (OneOfSchema b schemas) =
  match map_toJSonSchema externalFiles options schemas with
  | Ok vs => Ok (obj_lit [("oneOf", JArr (map JObj vs))])
  | Throw e => Throw e
  end.
Proof.
  simpl.
  match goal with
  | |- match ?f schemas with _ => _ end = _ =>
      assert (E : forall ss, f ss = map_toJSonSchema externalFiles options ss)
  end.
  { induction ss as [|s ss IH]; simpl; [reflexivity|].
    rewrite IH. reflexivity. }
  rewrite E. reflexivity.
Qed.

Lemma toJSonSchema_AnyOfSchema b schemas :
  toJSonSchema externalFiles options (AnyOfSchema b schemas) =
  match map_toJSonSchema externalFiles options schemas with
  | Ok vs => Ok (obj_lit [("anyOf", JArr (map JObj vs))])
  | Throw e => Throw e
  end.
Proof.
  simpl.
  match goal with
  | |- match ?f schemas with _ => _ end = _ =>
      assert (E : forall ss, f ss = map_toJSonSchema externalFiles options ss)
  end.
  { induction ss as [|s ss IH]; simpl; [reflexivity|].
    rewrite IH. reflexivity. }
  rewrite E. reflexivity.
Qed.

Lemma ExtensibleSchema_defined b own :
  Forall defined (obj_values (ExtensibleSchema_toJSonSchema b own)).
Proof. apply ignoreUndefined_defined. Qed.

Lemma ReferenceSchema_defined file path j :
  ReferenceSchema_toJSonSchema externalFiles file path = Ok j ->
  Forall defined (obj_values j).
Proof.
  unfold ReferenceSchema_toJSonSchema.
  destruct (prop_get externalFiles file) as [t|n|]; [destruct (String.eqb t "")| |];
    intros H; inversion H; subst; repeat constructor; discriminate.
Qed.
End SerializeFacts.

Lemma ExtensibleSchema_example_null b own :
  _example b = JNull ->
  obj_get (obj_rest ["type"; "format"] own) "example" = None ->
  obj_get (ExtensibleSchema_toJSonSchema b own) "example" = Some JNull.
Proof.
  intros Hnull Hown. unfold ExtensibleSchema_toJSonSchema.
  rewrite obj_get_ignoreUndefined, obj_get_assign.
  assert (Hrev : obj_get (rev (obj_rest ["type"; "format"] own)) "example" = None).
  { destruct (obj_get (rev _) "example") eqn:E; [|reflexivity].
    apply obj_get_In, in_rev, (in_map fst) in E. simpl in E.
    fold (obj_keys (obj_rest ["type"; "format"] own)) in E.
    apply obj_get_keys in E. contradiction. }
  rewrite Hrev. destruct b as [d r dp e es ex]. simpl in Hnull. subst ex.
  reflexivity.
Qed.

(** C8 (as amended).  Whatever the node, the fragment that its
    serialization returns binds no key to [undefined]: an attribute that
    is absent is left out.  An attribute that was set to [null] is not
    absent: after [example(null)] the fragment has [example: null]. *)
Theorem toJSonSchema_omits_undefined :
  forall (externalFiles : JsObj string) (options : Options) (s : Schema)
         (j : JsonSchema),
    toJSonSchema externalFiles options s = Ok j ->
    Forall defined (obj_values j)
    /\ (extensible s = true -> _example (base s) = JNull ->
        obj_get j "example" = Some JNull).
Proof.
  intros ef options s. induction s; intros j H;
    (split; [|try discriminate; simpl; intros _ Hnull]).
  - simpl in H. ok_inv H. apply ExtensibleSchema_defined.
  - simpl in H. ok_inv H. apply ExtensibleSchema_example_null; [exact Hnull|].
    reflexivity.
  - simpl in H. ok_inv H. apply ExtensibleSchema_defined.
  - simpl in H. ok_inv H. apply ExtensibleSchema_example_null; [exact Hnull|].
    reflexivity.
  - simpl in H. ok_inv H. apply ExtensibleSchema_defined.
  - simpl in H. ok_inv H. apply ExtensibleSchema_example_null; [exact Hnull|].
    reflexivity.
  - simpl in H. ok_inv H. apply ExtensibleSchema_defined.
  - simpl in H. ok_inv H. apply ExtensibleSchema_example_null; [exact Hnull|].
    reflexivity.
  - simpl in H. ok_inv H. apply ExtensibleSchema_defined.
  - simpl in H. ok_inv H. apply ExtensibleSchema_example_null; [exact Hnull|].
    reflexivity.
  - rewrite toJSonSchema_ObjectField in H.
    destruct (fields_toJSonSchema ef options _fields); [|discriminate].
    ok_inv H. apply ExtensibleSchema_defined.
  - rewrite toJSonSchema_ObjectField in H.
    destruct (fields_toJSonSchema ef options _fields); [|discriminate].
    ok_inv H. apply ExtensibleSchema_example_null; [exact Hnull|].
    reflexivity.
  - simpl in H. destruct _items as [it|].
    + destruct (toJSonSchema ef options it); [|discriminate].
      ok_inv H. apply ExtensibleSchema_defined.
    + ok_inv H. apply ExtensibleSchema_defined.
  - simpl in H. destruct _items as [it|].
    + destruct (toJSonSchema ef options it); [|discriminate].
      ok_inv H. apply ExtensibleSchema_example_null; [exact Hnull|].
      reflexivity.
    + ok_inv H. apply ExtensibleSchema_example_null; [exact Hnull|].
      reflexivity.
  - simpl in H. destruct (type options).
    + apply IHs, H.
    + ok_inv H. repeat constructor. discriminate.
  - simpl in H. eapply ReferenceSchema_defined, H.
  - rewrite toJSonSchema_OneOfSchema in H.
    destruct (map_toJSonSchema ef options _schemas); [|discriminate].
    ok_inv H. repeat constructor. discriminate.
  - rewrite toJSonSchema_AnyOfSchema in H.
    destruct (map_toJSonSchema ef options _schemas); [|discriminate].
    ok_inv H. repeat constructor. discriminate.
Qed.

Lemma toJSonSchema_omits_undefined_witness :
  toJSonSchema [] {| type := flat |}
    (StringField (set__example JNull Base0) None None None)
  = Ok [("type", JStr "string"); ("example", JNull)]
  /\ Forall defined (obj_values [("type", JStr "string"); ("example", JNull)])
  /\ obj_get [("type", JStr "string"); ("example", JNull)] "example" = Some JNull.
Proof.
  split; [reflexivity|].
  pose proof (toJSonSchema_omits_undefined [] {| type := flat |}
                (StringField (set__example JNull Base0) None None None)
                [("type", JStr "string"); ("example", JNull)] eq_refl) as [H1 H2].
  split; [exact H1|].
  exact (H2 eq_refl eq_refl).
Defined.

(** C8 as stated fails: [oas.string().example(null)] serializes to a
    fragment whose key [example] is bound to [null]. *)
Lemma example_null_is_emitted :
  fst ((a ← oas.string;
        b ← ExtensibleSchema_example a JNull;
        serialize {| type := flat |} b) World0)
  = Ok [("type", JStr "string"); ("example", JNull)].
Proof. reflexivity. Qed.

(** C2.  [object({id: string().required(), age: number().min(0)})]
    serializes in flat mode to
    [{type: "object", properties: {id: {type: "string"},
      age: {type: "number", minimum: 0}}, required: ["id"]}],
    and the fragment has no key [additionalProperties]. *)
Theorem object_id_age_flat :
  let build : M JsonSchema :=
    s ← oas.string;
    id ← Schema_required s;
    n ← oas.number;
    age ← NumberField_min n 0;
    o ← oas.object (obj_lit [("id", id); ("age", age)]);
    serialize {| type := flat |} o in
  let fragment : JsonSchema :=
    [ ("type", JStr "object");
      ("properties",
        JObj [ ("id", JObj [("type", JStr "string")]);
               ("age", JObj [("type", JStr "number"); ("minimum", JNum 0)]) ]);
      ("required", JArr [JStr "id"]) ] in
  fst (build World0) = Ok fragment
  /\ obj_get fragment "additionalProperties" = None.
Proof. split; reflexivity. Qed.

(** ** Parameter projection *)

Lemma mapM_Ok {A B : Type} (f : A -> Result B) (l : list A) (r : list B) :
  mapM f l = Ok r -> Forall2 (fun x y => f x = Ok y) l r.
Proof.
  revert r. induction l as [|x l IH]; intros r H; simpl in H.
  - injection H as <-. constructor.
  - unfold mbind, Result_bind in H.
    destruct (f x) as [y|] eqn:Ex; [|discriminate].
    destruct (mapM f l) as [k|]; [|discriminate].
    injection H as <-. constructor; [exact Ex | apply IH; reflexivity].
Qed.

Lemma mapM_returns {A B : Type} (f : A -> Result B) (l : list A) :
  Forall (fun x => exists y, f x = Ok y) l -> exists r, mapM f l = Ok r.
Proof.
  induction 1 as [|x l [y Hy] _ [r Hr]].
  - eexists. reflexivity.
  - exists (y :: r).
    change (mapM f (x :: l)) with (y ← f x; k ← mapM f l; mret (y :: k)).
    rewrite Hy. simpl. rewrite Hr. reflexivity.
Qed.

Lemma parameter_of_spec ef options fields parameterType key d :
  parameter_of ef options fields parameterType key = Ok d ->
  exists field o,
    obj_get fields key = Some field
    /\ d = JObj o
    /\ get o "name" = JStr key
    /\ get o "in" = JStr (ParameterType_str parameterType)
    /\ get o "required" = descriptor_required parameterType field.
Proof.
  unfold parameter_of. destruct (obj_get fields key) as [field|]; [|discriminate].
  unfold mbind, Result_bind.
  destruct (toJSonSchema ef options (unwrap_fixed field)) as [j|]; [|discriminate].
  intros H. injection H as <-. exists field. eexists.
  split; [reflexivity|]. split; [reflexivity|].
  destruct parameterType; repeat split; reflexivity.
Qed.

(** C6.  [asParameterList] gives one descriptor per field, in the order of
    the keys.  With the location [path] its [required] is [true], whatever
    the flag of the field; with any other location it is the flag of the
    field.  The call returns whenever every field serializes. *)
Theorem asParameterList_required :
  forall (externalFiles : JsObj string) (options : Options)
         (this : ObjectFieldObj) (parameterType : ParameterType),
    (forall l,
       ObjectField_asParameterList externalFiles options this parameterType = Ok l ->
       Forall2
         (fun key d =>
            exists field o,
              obj_get (o_fields this) key = Some field
              /\ d = JObj o
              /\ get o "name" = JStr key
              /\ get o "in" = JStr (ParameterType_str parameterType)
              /\ get o "required" =
                 match parameterType with
                 | PPath => JBool true
                 | _ => of_option JBool (_required (base field))
                 end)
         (obj_keys (o_fields this)) l)
    /\ ((forall key field,
           obj_get (o_fields this) key = Some field ->
           exists j, toJSonSchema externalFiles options (unwrap_fixed field) = Ok j) ->
        exists l,
          ObjectField_asParameterList externalFiles options this parameterType = Ok l).
Proof.
  intros ef options this parameterType. split.
  - intros l H. apply mapM_Ok in H.
    eapply Forall2_impl; [exact H|].
    intros key d Hd. apply parameter_of_spec in Hd. exact Hd.
  - intros Hser. apply mapM_returns. apply List.Forall_forall. intros key Hkey.
    apply obj_get_keys in Hkey.
    destruct (obj_get (o_fields this) key) as [field|] eqn:E; [|congruence].
    destruct (Hser key field E) as [j Hj].
    unfold parameter_of. rewrite E. unfold mbind, Result_bind. rewrite Hj.
    eexists. reflexivity.
Qed.

Lemma asParameterList_required_witness :
  let this :=
    {| o_base := Base0;
       o_fields := [("userId", StringField Base0 None None None)];
       o_additionalProperties := None |} in
  let descriptor loc required :=
    JObj [ ("description", JUndefined); ("name", JStr "userId"); ("in", JStr loc);
           ("explode", JUndefined); ("required", required);
           ("schema", JObj [("type", JStr "string")]) ] in
  ObjectField_asParameterList [] {| type := flat |} this PPath
    = Ok [descriptor "path" (JBool true)]
  /\ ObjectField_asParameterList [] {| type := flat |} this PQuery
    = Ok [descriptor "query" JUndefined]
  /\ Forall2
       (fun key d =>
          exists field o,
            obj_get (o_fields this) key = Some field
            /\ d = JObj o
            /\ get o "name" = JStr key
            /\ get o "in" = JStr "path"
            /\ get o "required" = JBool true)
       ["userId"] [descriptor "path" (JBool true)].
Proof.
  intros this descriptor. split; [reflexivity|]. split; [reflexivity|].
  exact (proj1 (asParameterList_required [] {| type := flat |} this PPath)
               [descriptor "path" (JBool true)] eq_refl).
Defined.

(** ** Routes *)

(** C7.  The operation of a defined route lists the header parameters
    first, then the path parameters, then the query parameters; with no
    parameter at all the key [parameters] is left out. *)
Theorem routeToJsonSchema_parameters :
  forall (externalFiles : JsObj string) (options : Options)
         (route : DefinedRoute.t) (j : JsonSchema),
    routeToJsonSchema externalFiles options (Defined route) = Ok j ->
    exists hs ps qs,
      parameters_of externalFiles options
        (DefinedRoute.validate route ≫= Validate.headers) PHeader = Ok hs
      /\ parameters_of externalFiles options
           (DefinedRoute.validate route ≫= Validate.path) PPath = Ok ps
      /\ parameters_of externalFiles options
           (DefinedRoute.validate route ≫= Validate.query) PQuery = Ok qs
      /\ obj_get j "parameters" =
         match hs ++ ps ++ qs with
         | [] => None
         | parameters => Some (JArr parameters)
         end.
Proof.
  intros ef options route j H.
  unfold routeToJsonSchema, route_parameters in H.
  unfold mbind, Result_bind in H.
  destruct (parameters_of ef options _ PHeader) as [hs|]; [|discriminate].
  destruct (parameters_of ef options _ PPath) as [ps|]; [|discriminate].
  destruct (parameters_of ef options _ PQuery) as [qs|]; [|discriminate].
  exists hs, ps, qs. repeat (split; [reflexivity|]).
  simpl in H.
  match type of H with
  | match ?b with _ => _ end = _ => destruct b as [requestBody|]; [|discriminate]
  end.
  destruct (toResponseSchema ef options _) as [success|]; [|discriminate].
  destruct (reduce _ _ _) as [errors|]; [|discriminate].
  ok_inv H. rewrite obj_get_ignoreUndefined.
  destruct (hs ++ ps ++ qs); reflexivity.
Qed.

Lemma routeToJsonSchema_parameters_witness :
  exists j,
    routeToJsonSchema [] {| type := flat |} (Defined widget_route) = Ok j
    /\ obj_get j "parameters" =
       Some (JArr
         [ JObj [ ("description", JUndefined); ("name", JStr "x-trace");
                  ("in", JStr "header"); ("explode", JUndefined);
                  ("required", JUndefined);
                  ("schema", JObj [("type", JStr "string")]) ];
           JObj [ ("description", JUndefined); ("name", JStr "id");
                  ("in", JStr "path"); ("explode", JUndefined);
                  ("required", JBool true);
                  ("schema", JObj [("type", JStr "string")]) ];
           JObj [ ("description", JUndefined); ("name", JStr "limit");
                  ("in", JStr "query"); ("explode", JUndefined);
                  ("required", JUndefined);
                  ("schema", JObj [("type", JStr "number")]) ] ]).
Proof.
  eexists. split; [reflexivity|].
  destruct (routeToJsonSchema_parameters [] {| type := flat |} widget_route _ eq_refl)
    as (hs & ps & qs & Hh & Hp & Hq & Hget).
  vm_compute in Hh, Hp, Hq.
  injection Hh as <-. injection Hp as <-. injection Hq as <-.
  exact Hget.
Defined.

(** ** Labels *)

Lemma requiredFields_In fields key field :
  obj_get fields key = Some field ->
  truthy (_required (base field)) = true ->
  In key (requiredFields fields).
Proof.
  intros Hget Hreq. unfold requiredFields. apply filter_In. split.
  - apply obj_get_keys. congruence.
  - rewrite Hget. exact Hreq.
Qed.

(** C9.  [s.label(L)] is a Fixed node with the [_required], [_deprecated]
    and [_explode] of [s]; hence a required field that is then labelled is
    still listed in [required] by the Object node that holds it, in either
    mode. *)
Theorem label_preserves_flags :
  forall (w : World) (this : addr) (s : Schema) (L : string),
    heap w !! this = Some s ->
    exists that w',
      ExtensibleSchema_label this L w = (Ok that, w')
      /\ heap w' !! that = Some (FixedSchema_new s L)
      /\ _required (base (FixedSchema_new s L)) = _required (base s)
      /\ _deprecated (base (FixedSchema_new s L)) = _deprecated (base s)
      /\ _explode (base (FixedSchema_new s L)) = _explode (base s)
      /\ forall externalFiles options b fields ap key j,
           _required (base s) = Some true ->
           obj_get fields key = Some (FixedSchema_new s L) ->
           toJSonSchema externalFiles options (ObjectField b fields ap) = Ok j ->
           exists required,
             obj_get j "required" = Some (JArr required)
             /\ In (JStr key) required.
Proof.
  intros w this s L Hs.
  exists (length (heap w)).
  eexists. split.
  { unfold ExtensibleSchema_label, FixedSchema_constructor, deref, alloc, modify.
    unfold mbind, M_bind, mret, M_ret. rewrite Hs. reflexivity. }
  split.
  { simpl. rewrite lookup_app_r by reflexivity.
    rewrite Nat.sub_diag. reflexivity. }
  repeat (split; [reflexivity|]).
  intros ef options b fields ap key j Hreq Hget H.
  rewrite toJSonSchema_ObjectField in H.
  destruct (fields_toJSonSchema ef options fields) as [props|]; [|discriminate].
  ok_inv H.
  assert (Hin : In key (requiredFields fields)).
  { eapply requiredFields_In; [exact Hget|]. simpl. rewrite Hreq. reflexivity. }
  exists (map JStr (requiredFields fields)). split.
  - unfold ExtensibleSchema_toJSonSchema. rewrite obj_get_ignoreUndefined.
    unfold ObjectField_ownFields.
    destruct (requiredFields fields) as [|r rs]; [contradiction|].
    reflexivity.
  - apply in_map, Hin.
Qed.

Lemma label_preserves_flags_witness :
  let w := snd ((s ← oas.string; Schema_required s) World0) in
  let user := FixedSchema_new (StringField (set__required (Some true) Base0)
                                 None None None) "User" in
  heap w !! 1%nat = Some (StringField (set__required (Some true) Base0) None None None)
  /\ ExtensibleSchema_label 1%nat "User" w
     = (Ok 2%nat,
        set_registeredFixedSchemas (fun _ => ["User"])
          (set_heap (fun h => h ++ [user]) w))
  /\ _required (base user) = Some true
  /\ toJSonSchema [] {| type := referenced |}
       (ObjectField Base0 [("owner", user)] None)
     = Ok [ ("type", JStr "object");
            ("properties",
              JObj [("owner", JObj [("$ref", JStr "#/components/schemas/User")])]);
            ("required", JArr [JStr "owner"]) ]
  /\ exists required,
       obj_get [ ("type", JStr "object");
                 ("properties",
                   JObj [("owner", JObj [("$ref", JStr "#/components/schemas/User")])]);
                 ("required", JArr [JStr "owner"]) ] "required"
       = Some (JArr required)
       /\ In (JStr "owner") required.
Proof.
  intros w user.
  split; [reflexivity|]. split; [reflexivity|]. split; [reflexivity|].
  split; [reflexivity|].
  destruct (label_preserves_flags w 1%nat _ "User" eq_refl)
    as (that & w' & _ & _ & _ & _ & _ & Hparent).
  exact (Hparent [] {| type := referenced |} Base0 [("owner", user)] None "owner" _
           eq_refl eq_refl eq_refl).
Defined.

(** ** Modifiers *)

Lemma alter_fresh (f : Schema -> Schema) (h : list Schema) (s : Schema) :
  alter f (length h) (h ++ [s]) = h ++ [f s].
Proof. induction h as [|x h IH]; simpl; [reflexivity|]. f_equal. exact IH. Qed.

(** [clone] then one assignment: a new object, the old ones as they were. *)
Lemma clone_assign (w : World) (this : addr) (s : Schema) (f : Schema -> Schema) :
  heap w !! this = Some s ->
  (that ← clone this; assign that f;; mret that) w =
  (Ok (length (heap w)), set_heap (fun h => h ++ [f s]) w).
Proof.
  intros Hs.
  unfold clone, deref, alloc, assign, modify, mbind, M_bind, mret, M_ret.
  rewrite Hs. simpl. unfold set_heap. simpl. rewrite alter_fresh. reflexivity.
Qed.

(** C10.  The fragment of an Object node never has the key
    [additionalProperties].  [this.additionalProperties(d)] returns a new
    Object node, the receiver staying as it was, and the fragment of the
    new node has the flag [d] under the key [additionaProperties].  The
    node that [oas.object] returns, to which the modifier was never
    applied, has neither key. *)
Theorem ObjectField_emits_additionaProperties :
  forall (w : World) (this : addr) (b : Base) (fields : JsObj Schema)
         (ap : option bool),
    heap w !! this = Some (ObjectField b fields ap) ->
    (forall options j,
       fst (serialize options this w) = Ok j ->
       obj_get j "additionalProperties" = None
       /\ obj_get j "additionaProperties" = (JBool <$> ap))
    /\ (forall d,
          exists that w',
            ObjectField_additionalProperties this d w = (Ok that, w')
            /\ heap w' !! this = Some (ObjectField b fields ap)
            /\ heap w' !! that = Some (ObjectField b fields (Some d))
            /\ forall options j,
                 fst (serialize options this w) = Ok j ->
                 exists j',
                   fst (serialize options that w') = Ok j'
                   /\ obj_get j' "additionalProperties" = None
                   /\ obj_get j' "additionaProperties" = Some (JBool d))
    /\ (forall w0 fields0 node w1 options j,
          oas.object fields0 w0 = (Ok node, w1) ->
          fst (serialize options node w1) = Ok j ->
          obj_get j "additionalProperties" = None
          /\ obj_get j "additionaProperties" = None).
Proof.
  intros w this b fields ap Hthis.
  assert (Hgen : forall ef options ap' j',
            toJSonSchema ef options (ObjectField b fields ap') = Ok j' ->
            obj_get j' "additionalProperties" = None
            /\ obj_get j' "additionaProperties" = (JBool <$> ap')).
  { intros ef options ap' j' H'. rewrite toJSonSchema_ObjectField in H'.
    destruct (fields_toJSonSchema ef options fields) as [props|]; [|discriminate].
    ok_inv H'. unfold ExtensibleSchema_toJSonSchema.
    rewrite !obj_get_ignoreUndefined. split.
    - reflexivity.
    - destruct ap'; reflexivity. }
  assert (Hser : forall options w0 node s,
            heap w0 !! node = Some s ->
            fst (serialize options node w0)
            = toJSonSchema (externalFiles w0) options s).
  { intros options w0 node s Hs.
    unfold serialize, deref, gets, lift, mbind, M_bind. rewrite Hs. reflexivity. }
  split; [|split].
  - intros options j H. rewrite (Hser _ _ _ _ Hthis) in H.
    exact (Hgen _ _ _ _ H).
  - intros d. exists (length (heap w)).
    exists (set_heap (fun h => h ++ [ObjectField b fields (Some d)]) w).
    assert (Hold : heap (set_heap (fun h => h ++ [ObjectField b fields (Some d)]) w)
                   !! this = Some (ObjectField b fields ap)).
    { simpl. rewrite lookup_app_l; [exact Hthis|].
      eapply lookup_lt_Some. exact Hthis. }
    assert (Hnew : heap (set_heap (fun h => h ++ [ObjectField b fields (Some d)]) w)
                   !! length (heap w) = Some (ObjectField b fields (Some d))).
    { simpl. rewrite lookup_app_r by reflexivity.
      rewrite Nat.sub_diag. reflexivity. }
    split; [|split; [exact Hold|split; [exact Hnew|]]].
    + unfold ObjectField_additionalProperties.
      rewrite (clone_assign w this _ _ Hthis). reflexivity.
    + intros options j H. rewrite (Hser _ _ _ _ Hthis) in H.
      rewrite (Hser _ _ _ _ Hnew). simpl externalFiles.
      rewrite toJSonSchema_ObjectField in H.
      destruct (fields_toJSonSchema (externalFiles w) options fields)
        as [props|] eqn:Eprops; [|discriminate].
      eexists. split.
      * rewrite toJSonSchema_ObjectField, Eprops. reflexivity.
      * apply (Hgen (externalFiles w) options (Some d)).
        rewrite toJSonSchema_ObjectField, Eprops. reflexivity.
  - intros w0 fields0 node w1 options j Hobject H.
    unfold oas.object, alloc, mbind, M_bind in Hobject.
    match type of Hobject with
    | match ?m with _ => _ end = _ => destruct m as [[fs|e] w0']; [|discriminate]
    end.
    injection Hobject as <- <-.
    rewrite (Hser options _ _ (ObjectField Base0 fs None)) in H.
    + rewrite toJSonSchema_ObjectField in H.
      destruct (fields_toJSonSchema _ options fs) as [props|]; [|discriminate].
      ok_inv H. unfold ExtensibleSchema_toJSonSchema.
      rewrite !obj_get_ignoreUndefined. split; reflexivity.
    + simpl. rewrite lookup_app_r by reflexivity.
      rewrite Nat.sub_diag. reflexivity.
Qed.

Lemma ObjectField_emits_additionaProperties_witness :
  heap (snd (oas.object [] World0)) !! 0%nat = Some (ObjectField Base0 [] None)
  /\ fst ((this ← oas.object []; serialize {| type := flat |} this) World0)
     = Ok [("type", JStr "object")]
  /\ fst ((this ← oas.object [];
           that ← ObjectField_additionalProperties this false;
           serialize {| type := flat |} that) World0)
     = Ok [("type", JStr "object"); ("additionaProperties", JBool false)]
  /\ exists that w' j',
       ObjectField_additionalProperties 0%nat false (snd (oas.object [] World0))
       = (Ok that, w')
       /\ fst (serialize {| type := flat |} that w') = Ok j'
       /\ obj_get j' "additionalProperties" = None
       /\ obj_get j' "additionaProperties" = Some (JBool false).
Proof.
  split; [reflexivity|]. split; [reflexivity|]. split; [reflexivity|].
  destruct (ObjectField_emits_additionaProperties
              (snd (oas.object [] World0)) 0%nat Base0 [] None eq_refl)
    as (_ & Hmodifier & _).
  destruct (Hmodifier false) as (that & w' & Hrun & _ & _ & Hserialize).
  destruct (Hserialize {| type := flat |} [("type", JStr "object")] eq_refl)
    as (j' & Hj' & Hno & Hyes).
  exists that, w', j'. repeat split; assumption.
Defined.

(** What a modifier does to the world: it appends one object. *)
Lemma apply_appends (m : Modifier) (w : World) (this : addr) (s : Schema) :
  heap w !! this = Some s ->
  (forall d, m = Items d -> is_Some (heap w !! d)) ->
  exists x w',
    apply m this w = (Ok (length (heap w)), w')
    /\ heap w' = heap w ++ [x]
    /\ externalFiles w' = externalFiles w
    /\ effects w' = effects w.
Proof.
  intros Hs Hitems.
  destruct m; simpl;
    try (eexists; eexists; split;
         [ first [ apply clone_assign; exact Hs ] | repeat split ]).
  - (* label *)
    exists (FixedSchema_new s d). eexists.
    split; [|split; [|split]].
    + unfold ExtensibleSchema_label, FixedSchema_constructor, deref, alloc, modify.
      unfold mbind, M_bind, mret, M_ret. rewrite Hs. reflexivity.
    + reflexivity.
    + reflexivity.
    + reflexivity.
  - (* items *)
    destruct (Hitems d eq_refl) as [x Hx].
    exists (set__items x s). eexists.
    split; [|split; [|split]].
    + unfold ArrayField_items, clone, deref, alloc, assign, modify.
      unfold mbind, M_bind, mret, M_ret. rewrite Hs. simpl.
      rewrite (lookup_app_l_Some _ _ _ _ Hx). simpl.
      unfold set_heap. simpl. rewrite alter_fresh. reflexivity.
    + reflexivity.
    + reflexivity.
    + reflexivity.
Qed.

(** C1 (as amended).  A modifier returns a new node and leaves every node
    that was there as it was: the receiver serializes as before.  For
    [a = string()] and [b = a.required()], [_required] is unset on [a] and
    [true] on [b]; neither fragment has a key [required], both are
    [{type: "string"}]. *)
Theorem modifiers_leave_receiver :
  forall (m : Modifier) (w : World) (this : addr) (s : Schema),
    heap w !! this = Some s ->
    (forall d, m = Items d -> is_Some (heap w !! d)) ->
    (exists that w',
       apply m this w = (Ok that, w')
       /\ that = length (heap w)
       /\ heap w !! that = None
       /\ is_Some (heap w' !! that)
       /\ (forall a x, heap w !! a = Some x -> heap w' !! a = Some x)
       /\ (forall options,
             fst (serialize options this w') = fst (serialize options this w)))
    /\ (let '(r, w1) := (a ← oas.string; b ← Schema_required a; mret (a, b)) World0 in
        exists a b sa sb,
          r = Ok (a, b) /\ a <> b
          /\ heap w1 !! a = Some sa /\ _required (base sa) = None
          /\ heap w1 !! b = Some sb /\ _required (base sb) = Some true
          /\ fst (serialize {| type := flat |} a w1) = Ok [("type", JStr "string")]
          /\ fst (serialize {| type := flat |} b w1) = Ok [("type", JStr "string")]).
Proof.
  intros m w this s Hs Hitems. split.
  - destruct (apply_appends m w this s Hs Hitems) as (x & w' & Happ & Hheap & Hef & _).
    exists (length (heap w)), w'. split; [exact Happ|]. split; [reflexivity|].
    split; [apply lookup_ge_None_2; reflexivity|].
    split.
    { rewrite Hheap. exists x. rewrite lookup_app_r by reflexivity.
      rewrite Nat.sub_diag. reflexivity. }
    split.
    { intros a y Ha. rewrite Hheap. apply lookup_app_l_Some, Ha. }
    intros options. unfold serialize, deref, gets, lift, mbind, M_bind.
    rewrite Hheap, (lookup_app_l_Some _ _ _ _ Hs), Hs, Hef. reflexivity.
  - simpl. exists 0%nat, 1%nat. eexists. eexists.
    split; [reflexivity|]. split; [discriminate|].
    repeat (split; [reflexivity|]). reflexivity.
Qed.

Lemma modifiers_leave_receiver_witness :
  let w := snd (oas.string World0) in
  heap w !! 0%nat = Some (StringField Base0 None None None)
  /\ exists that w',
       apply Required 0%nat w = (Ok that, w')
       /\ that = 1%nat
       /\ heap w' !! 0%nat = Some (StringField Base0 None None None)
       /\ fst (serialize {| type := flat |} 0%nat w')
          = fst (serialize {| type := flat |} 0%nat w).
Proof.
  intros w. split; [reflexivity|].
  destruct (modifiers_leave_receiver Required w 0%nat _ eq_refl) as [H _].
  { intros d E. discriminate E. }
  destruct H as (that & w' & Happ & Hthat & _ & _ & Hkeep & Hser).
  exists that, w'. split; [exact Happ|]. split; [exact Hthat|].
  split; [apply Hkeep; reflexivity | apply Hser].
Defined.

(** C1 as stated fails in its example: the fragment of
    [string().required()] has no key [required]. *)
Lemma required_is_not_serialized :
  fst ((a ← oas.string;
        b ← Schema_required a;
        serialize {| type := flat |} b) World0)
  = Ok [("type", JStr "string")]
  /\ get [("type", JStr "string")] "required" <> JBool true.
Proof. split; [reflexivity | discriminate]. Qed.

(** ** Sorting *)

Section SortFacts.
Context {A : Type}.
Variable key : A -> Z.

Let compareFn (a b : A) : Z := key a - key b.
Let le_key (a b : A) : Prop := key a <= key b.
Let has_key (k : Z) (a : A) : bool := key a =? k.

Lemma sort_insert_perm x l : Permutation (x :: l) (sort_insert compareFn x l).
Proof.
  induction l as [|y l IH]; simpl; [reflexivity|].
  destruct (compareFn x y <=? 0); [reflexivity|].
  rewrite perm_swap. constructor. exact IH.
Qed.

Lemma Array_sort_perm l : Permutation l (Array_sort compareFn l).
Proof.
  induction l as [|x l IH]; simpl; [reflexivity|].
  rewrite <- sort_insert_perm. constructor. exact IH.
Qed.

Lemma sort_insert_sorted x l :
  StronglySorted le_key l -> StronglySorted le_key (sort_insert compareFn x l).
Proof.
  induction 1 as [|y l Hl IH Hy]; simpl.
  - repeat constructor.
  - unfold compareFn at 1. destruct (Z.leb_spec (key x - key y) 0) as [Hle|Hgt].
    + constructor; [constructor; assumption|].
      constructor; [unfold le_key; lia|].
      eapply List.Forall_impl; [|exact Hy]. unfold le_key. intros a Ha. lia.
    + constructor; [exact IH|].
      eapply Permutation_Forall; [apply sort_insert_perm|].
      constructor; [unfold le_key; lia | exact Hy].
Qed.

Lemma Array_sort_sorted l : StronglySorted le_key (Array_sort compareFn l).
Proof.
  induction l as [|x l IH]; simpl; [constructor|].
  apply sort_insert_sorted, IH.
Qed.

Lemma sort_insert_filter k x l :
  List.filter (has_key k) (sort_insert compareFn x l) =
  List.filter (has_key k) (x :: l).
Proof.
  induction l as [|y l IH]; simpl; [reflexivity|].
  unfold compareFn at 1. destruct (Z.leb_spec (key x - key y) 0) as [Hle|Hgt].
  - reflexivity.
  - simpl. rewrite IH. simpl. unfold has_key.
    destruct (Z.eqb_spec (key x) k), (Z.eqb_spec (key y) k); try reflexivity. lia.
Qed.

(** Elements of equal key keep their order. *)
Lemma Array_sort_stable k l :
  List.filter (has_key k) (Array_sort compareFn l) = List.filter (has_key k) l.
Proof.
  induction l as [|x l IH]; simpl; [reflexivity|].
  rewrite sort_insert_filter. simpl. rewrite IH. reflexivity.
Qed.

(** Ascending keys and the order of equal keys determine the list: every
    stable sort gives the result of [Array_sort]. *)
Lemma sorted_stable_unique l1 l2 :
  StronglySorted le_key l1 -> StronglySorted le_key l2 ->
  (forall k, List.filter (has_key k) l1 = List.filter (has_key k) l2) ->
  l1 = l2.
Proof.
  intros H1. revert l2.
  induction H1 as [|x l1 Hl1 IH Hx]; intros l2 H2 Hf.
  - destruct l2 as [|y l2]; [reflexivity|].
    specialize (Hf (key y)). simpl in Hf. unfold has_key in Hf.
    rewrite Z.eqb_refl in Hf. discriminate.
  - destruct H2 as [|y l2 Hl2 Hy].
    + specialize (Hf (key x)). simpl in Hf. unfold has_key in Hf.
      rewrite Z.eqb_refl in Hf. discriminate.
    + assert (Hxy : key x = key y).
      { assert (Hle1 : key x <= key y).
        { pose proof (Hf (key y)) as E. simpl in E. unfold has_key in E.
          rewrite (Z.eqb_refl (key y)) in E.
          destruct (Z.eqb_spec (key x) (key y)) as [->|_]; [lia|].
          assert (Hin : In y (List.filter (fun a => key a =? key y) l1)).
          { rewrite E. left. reflexivity. }
          apply filter_In in Hin. destruct Hin as [Hin _].
          rewrite List.Forall_forall in Hx. exact (Hx y Hin). }
        assert (Hle2 : key y <= key x).
        { pose proof (Hf (key x)) as E. simpl in E. unfold has_key in E.
          rewrite (Z.eqb_refl (key x)) in E.
          destruct (Z.eqb_spec (key y) (key x)) as [->|_]; [lia|].
          assert (Hin : In x (List.filter (fun a => key a =? key x) l2)).
          { rewrite <- E. left. reflexivity. }
          apply filter_In in Hin. destruct Hin as [Hin _].
          rewrite List.Forall_forall in Hy. exact (Hy x Hin). }
        lia. }
      assert (Exy : x = y).
      { pose proof (Hf (key x)) as E. simpl in E. unfold has_key in E.
        rewrite Z.eqb_refl in E. rewrite <- Hxy, Z.eqb_refl in E.
        injection E as E _. exact E. }
      subst y. f_equal. apply IH; [exact Hl2|].
      intros k. specialize (Hf k). simpl in Hf.
      destruct (has_key k x); [injection Hf as Hf|]; exact Hf.
Qed.

(** Whoever stands after [a] in a sorted list has a key that is no less. *)
Lemma sorted_later l l1 a l2 b l3 :
  StronglySorted le_key l -> l = l1 ++ a :: l2 ++ b :: l3 -> key a <= key b.
Proof.
  intros H ->. induction l1 as [|c l1 IH]; simpl in H.
  - apply StronglySorted_inv in H as [_ H].
    rewrite List.Forall_forall in H. apply (H b).
    apply in_or_app. right. left. reflexivity.
  - apply StronglySorted_inv in H as [H _]. exact (IH H).
Qed.
End SortFacts.

(** ** The order of the path items *)

Lemma slash_not_array_index p : starts_with_slash p = true -> is_array_index p = None.
Proof.
  destruct p as [|c r]; simpl; [discriminate|].
  unfold is_slash. intros H. apply Ascii.eqb_eq in H. subst c. reflexivity.
Qed.

Lemma slash_not_inherited p : starts_with_slash p = true -> inherited p = false.
Proof.
  destruct p as [|c r]; simpl; [discriminate|].
  unfold is_slash. intros H. apply Ascii.eqb_eq in H. subst c. reflexivity.
Qed.

Section KeysFacts.
Context {V : Type}.
Implicit Types (o : JsObj V) (k : string) (v : V).

Lemma existsb_obj_keys o k : existsb (String.eqb k) (obj_keys o) = obj_has o k.
Proof.
  unfold obj_has, obj_keys.
  induction o as [|[k0 v0] o IH]; simpl; [reflexivity|].
  destruct (String.eqb k k0); [reflexivity | exact IH].
Qed.

Lemma obj_keys_replace o k v : obj_keys (obj_replace o k v) = obj_keys o.
Proof.
  unfold obj_keys.
  induction o as [|[k0 v0] o IH]; simpl; [reflexivity|].
  destruct (String.eqb k k0); simpl; [reflexivity|]. f_equal. exact IH.
Qed.

(** A key that is no array index: kept in place, or appended. *)
Lemma obj_keys_set o k v :
  is_array_index k = None ->
  obj_keys (obj_set o k v) = add_key (obj_keys o) k.
Proof.
  intros Hk. unfold obj_set, add_key. rewrite existsb_obj_keys.
  destruct (obj_has o k); [apply obj_keys_replace|].
  rewrite Hk. unfold obj_keys. rewrite map_app. reflexivity.
Qed.
End KeysFacts.

Lemma paths_step_keys ef options acc route acc' :
  starts_with_slash (Route_path route) = true ->
  paths_step ef options acc route = Ok acc' ->
  obj_keys acc' = add_key (obj_keys acc) (Route_path route).
Proof.
  intros Hslash. unfold paths_step, prop_get.
  rewrite (slash_not_inherited _ Hslash).
  unfold mbind, Result_bind.
  destruct (obj_get acc (Route_path route)) as [path|] eqn:E;
    destruct (routeToJsonSchema ef options route) as [v|]; try discriminate;
    intros H; ok_inv H; apply obj_keys_set, slash_not_array_index, Hslash.
Qed.

Lemma make_paths_keys ef options routes paths :
  Forall (fun route => starts_with_slash (Route_path route) = true) routes ->
  make_paths ef options routes = Ok paths ->
  obj_keys paths = first_occurrences (map Route_path routes).
Proof.
  unfold make_paths, first_occurrences.
  change (@nil string) with (obj_keys ([] : JsObj (JsObj JsVal))).
  generalize ([] : JsObj (JsObj JsVal)) as acc.
  induction routes as [|route routes IH]; intros acc Hall H; simpl in *.
  - ok_inv H. reflexivity.
  - inversion Hall as [|? ? Hroute Hrest]; subst.
    destruct (paths_step ef options acc route) as [acc'|] eqn:E; [|discriminate].
    rewrite (IH acc' Hrest H). f_equal. apply (paths_step_keys _ _ _ _ _ Hroute E).
Qed.

(** C3 (as amended).  The routes are visited, and their path items
    inserted, in ascending order of [order], an undefined [order] counting
    as 10000, and routes of equal order in the order of the array.  A route
    without [order] thus stands after every route whose order is below
    10000, and before those above.  Orders [undefined, 1, 0] give
    [0, 1, undefined]. *)
Theorem sortedRoutes_stable_ascending :
  forall routes : list Route,
    Permutation routes (sortedRoutes routes)
    /\ StronglySorted (fun a b => order_key a <= order_key b) (sortedRoutes routes)
    /\ (forall k,
          List.filter (fun a => order_key a =? k) (sortedRoutes routes)
          = List.filter (fun a => order_key a =? k) routes)
    /\ (forall l1 a l2 b l3 order,
          sortedRoutes routes = l1 ++ a :: l2 ++ b :: l3 ->
          Route_order a = None -> Route_order b = Some order -> 10000 <= order)
    /\ (forall ef options paths,
          Forall (fun route => starts_with_slash (Route_path route) = true) routes ->
          make_paths ef options (sortedRoutes routes) = Ok paths ->
          obj_keys paths
          = first_occurrences (map Route_path (sortedRoutes routes)))
    /\ sortedRoutes [ref_route "/a" None; ref_route "/b" (Some 1);
                     ref_route "/c" (Some 0)]
       = [ref_route "/c" (Some 0); ref_route "/b" (Some 1); ref_route "/a" None]
    /\ obj_keys <$> make_paths [] {| type := flat |}
         (sortedRoutes [ref_route "/a" None; ref_route "/b" (Some 1);
                        ref_route "/c" (Some 0)])
       = Ok ["/c"; "/b"; "/a"].
Proof.
  intros routes. unfold sortedRoutes.
  split; [apply Array_sort_perm|].
  split; [apply Array_sort_sorted|].
  split; [intros k; apply Array_sort_stable|].
  split.
  { intros l1 a l2 b l3 order E Ha Hb.
    pose proof (sorted_later order_key _ l1 a l2 b l3
                  (Array_sort_sorted order_key routes) E) as Hle.
    unfold order_key in Hle. rewrite Ha, Hb in Hle. exact Hle. }
  split.
  { intros ef options paths Hall H. apply (make_paths_keys ef options); [|exact H].
    eapply Permutation_Forall; [apply Array_sort_perm | exact Hall]. }
  split; reflexivity.
Qed.

(** C3 as stated fails: a route without [order] does not sort last when
    another route has an order above 10000. *)
Lemma undefined_order_not_last :
  sortedRoutes [ref_route "/a" None; ref_route "/b" (Some 20000)]
  = [ref_route "/a" None; ref_route "/b" (Some 20000)]
  /\ obj_keys <$> make_paths [] {| type := flat |}
       (sortedRoutes [ref_route "/a" None; ref_route "/b" (Some 20000)])
     = Ok ["/a"; "/b"].
Proof. split; reflexivity. Qed.

(** ** Duplicate labels *)

Lemma occurrences_app s l x :
  occurrences s (l ++ [x]) =
  (occurrences s l + (if String.eqb s x then 1 else 0))%nat.
Proof.
  unfold occurrences. rewrite List.filter_app, List.length_app. simpl.
  destruct (String.eqb s x); reflexivity.
Qed.

Lemma count_up_counted acc s n :
  inherited s = false ->
  obj_get acc s = count_value n ->
  count_up acc s = JNum (Z.of_nat (S n)).
Proof.
  intros Hs Hget. unfold count_up, prop_get. rewrite Hget, Hs.
  destruct n as [|n]; simpl; [reflexivity|]. f_equal. lia.
Qed.

(** For a label that [Object.prototype] does not know, the counting
    object holds the number of registrations. *)
Lemma schemaCount_counts registered s :
  inherited s = false ->
  obj_get (schemaCount registered) s = count_value (occurrences s registered).
Proof.
  intros Hs. unfold schemaCount.
  induction registered as [|x l IH] using rev_ind; [reflexivity|].
  rewrite fold_left_app, occurrences_app. simpl.
  rewrite obj_get_set.
  destruct (String.eqb_spec s x) as [E|Hne].
  - subst x. rewrite (count_up_counted _ s _ Hs IH), Nat.add_1_r. reflexivity.
  - rewrite IH, Nat.add_0_r. reflexivity.
Qed.

(** Such a label is reported exactly when it was registered twice or more. *)
Lemma getDuplicateFixedSchemas_spec registered s :
  inherited s = false ->
  In s (getDuplicateFixedSchemas registered) <-> (2 <= occurrences s registered)%nat.
Proof.
  intros Hs. unfold getDuplicateFixedSchemas. fold (schemaCount registered).
  rewrite filter_In, obj_get_keys. unfold get.
  rewrite (schemaCount_counts registered s Hs).
  destruct (occurrences s registered) as [|[|n]]; simpl.
  - split; [intros [H _]; congruence | lia].
  - split; [intros [_ H]; discriminate | lia].
  - split; [lia|]. intros _. split; [discriminate|].
    apply Z.ltb_lt. lia.
Qed.

(** With a duplicate reported, a build in referenced mode throws as soon
    as it has its scratch directory: nothing is resolved, written or
    printed. *)
Lemma makeSchema_referenced_duplicates env params w dir :
  getDuplicateFixedSchemas (registeredFixedSchemas w) <> [] ->
  fs_mkdtemp env (path_join env (os_tmpdir env) "oas-dsl") (effects w) = Ok dir ->
  fst (makeSchema env params {| type := referenced |} w)
  = Throw ("Found duplicate fixed schemas: "
           +:+ join (getDuplicateFixedSchemas (registeredFixedSchemas w)))
  /\ effects (snd (makeSchema env params {| type := referenced |} w))
     = effects w ++ [MkDir dir; RmDir dir]
  /\ externalFiles (snd (makeSchema env params {| type := referenced |} w))
     = externalFiles w.
Proof.
  intros Hdup Hdir.
  unfold makeSchema, withTempDir, gets, lift, emit, modify, try_finally, throw.
  unfold mbind, M_bind. rewrite Hdir. simpl.
  destruct (getDuplicateFixedSchemas (registeredFixedSchemas w)) as [|d ds];
    [congruence|].
  simpl. rewrite <- app_assoc. repeat split; reflexivity.
Qed.

(** *** A build in flat mode does not look at the registry *)

Lemma ignores_registry_ret {A : Type} (a : A) : ignores_registry (mret a).
Proof. intros w r. reflexivity. Qed.

Lemma ignores_registry_bind {A B : Type} (m : M A) (f : A -> M B) :
  ignores_registry m -> (forall a, ignores_registry (f a)) ->
  ignores_registry (m ≫= f).
Proof.
  intros Hm Hf w r. unfold mbind, M_bind. rewrite Hm.
  destruct (m w) as [[a|e] w']; simpl; [apply Hf | reflexivity].
Qed.

Lemma ignores_registry_lift {A : Type} (x : Result A) : ignores_registry (lift x).
Proof. intros w r. reflexivity. Qed.

Lemma ignores_registry_gets {A : Type} (f : World -> A) :
  (forall w r, f (with_registered r w) = f w) -> ignores_registry (gets f).
Proof. intros Hf w r. unfold gets. rewrite Hf. reflexivity. Qed.

Lemma ignores_registry_modify (g : World -> World) :
  (forall w r, g (with_registered r w) = with_registered r (g w)) ->
  ignores_registry (modify g).
Proof. intros Hg w r. unfold modify. rewrite Hg. reflexivity. Qed.

Lemma ignores_registry_emit e : ignores_registry (emit e).
Proof. apply ignores_registry_modify. reflexivity. Qed.

Lemma ignores_registry_set_externalFiles f :
  ignores_registry (modify (set_externalFiles f)).
Proof. apply ignores_registry_modify. reflexivity. Qed.

Lemma ignores_registry_try_finally {A : Type} (m : M A) (f : M unit) :
  ignores_registry m -> ignores_registry f -> ignores_registry (try_finally m f).
Proof.
  intros Hm Hf w r. unfold try_finally. rewrite Hm.
  destruct (m w) as [x w']. simpl. rewrite Hf.
  destruct (f w') as [[u|e] w'']; reflexivity.
Qed.

Lemma ignores_registry_forEach {A : Type} (body : A -> M unit) l :
  (forall x, ignores_registry (body x)) -> ignores_registry (forEach body l).
Proof.
  intros Hbody. induction l as [|x l IH]; simpl.
  - apply ignores_registry_ret.
  - apply ignores_registry_bind; [apply Hbody | intros _; exact IH].
Qed.

Create HintDb registry.
#[local] Hint Resolve ignores_registry_ret ignores_registry_lift
  ignores_registry_emit ignores_registry_set_externalFiles : registry.

Ltac registry_step :=
  first
    [ apply ignores_registry_bind; [|intros ?]
    | apply ignores_registry_gets; reflexivity
    | apply ignores_registry_forEach; intros ?
    | apply ignores_registry_try_finally
    | solve [auto with registry]
    | match goal with
      | |- ignores_registry (match ?x with _ => _ end) => destruct x
      end ].

Lemma ignores_registry_writeFile env filename data :
  ignores_registry (writeFile env filename data).
Proof. unfold writeFile. repeat registry_step. Qed.

Lemma ignores_registry_normalizeSchema env tempDir type source target :
  ignores_registry (normalizeSchema env tempDir type source target).
Proof.
  unfold normalizeSchema, randomFilename.
  repeat first [apply ignores_registry_writeFile | registry_step].
Qed.

Lemma ignores_registry_dereferenceExternalSchemas env routes tempDir :
  ignores_registry (dereferenceExternalSchemas env routes tempDir).
Proof.
  unfold dereferenceExternalSchemas.
  repeat first [apply ignores_registry_normalizeSchema | registry_step].
Qed.

(** The registry has no part in a build in flat mode: the check for
    duplicates is not run. *)
Lemma makeSchema_flat_ignores_registry env params :
  ignores_registry (makeSchema env params {| type := flat |}).
Proof.
  unfold makeSchema, withTempDir. simpl.
  repeat first [ apply ignores_registry_normalizeSchema
               | apply ignores_registry_dereferenceExternalSchemas
               | registry_step ].
Qed.

(** Two registrations of a label that [Object.prototype] does not know
    make a build in referenced mode throw before any output; the same
    world builds in flat mode as if nothing had been registered. *)
Lemma duplicate_label_aborts_referenced_only env params w label dir :
  inherited label = false ->
  (2 <= occurrences label (registeredFixedSchemas w))%nat ->
  fs_mkdtemp env (path_join env (os_tmpdir env) "oas-dsl") (effects w) = Ok dir ->
  (exists message,
     fst (makeSchema env params {| type := referenced |} w) = Throw message
     /\ effects (snd (makeSchema env params {| type := referenced |} w))
        = effects w ++ [MkDir dir; RmDir dir])
  /\ fst (makeSchema env params {| type := flat |} w)
     = fst (makeSchema env params {| type := flat |} (with_registered [] w)).
Proof.
  intros Hlabel Hocc Hdir. split.
  - assert (Hdup : getDuplicateFixedSchemas (registeredFixedSchemas w) <> []).
    { intros E. apply (getDuplicateFixedSchemas_spec _ _ Hlabel) in Hocc.
      rewrite E in Hocc. exact Hocc. }
    destruct (makeSchema_referenced_duplicates env params w dir Hdup Hdir)
      as (Hthrow & Heff & _).
    eexists. split; [exact Hthrow | exact Heff].
  - rewrite (makeSchema_flat_ignores_registry env params w []). reflexivity.
Qed.

(** C4, at the failing input.  Two nodes labelled ["constructor"] are
    registered, yet no duplicate is reported: the counting object finds
    the inherited [constructor] where it expects no count.  The build in
    referenced mode goes through and writes its output, and the component
    of the first node is lost to that of the second.  With the label
    ["User"] the same build throws before any output, and builds in flat
    mode. *)
Theorem duplicate_constructor_label_not_detected :
  registeredFixedSchemas
    (snd (build_with_label "constructor" {| type := referenced |} World0))
  = ["constructor"; "constructor"]
  /\ getDuplicateFixedSchemas ["constructor"; "constructor"] = []
  /\ fst (build_with_label "constructor" {| type := referenced |} World0) = Ok tt
  /\ In (WriteFile "openapi.json" "{}")
        (effects (snd (build_with_label "constructor" {| type := referenced |}
                         World0)))
  /\ toSchemaObject [] {| type := referenced |}
       (collectRefSchemasForRoute
          (body_route
             (FixedSchema_new (StringField Base0 None None None) "constructor")
             (FixedSchema_new (NumberField Base0 None None None) "constructor")))
     = Ok [("constructor", JObj [("type", JStr "number")])]
  /\ fst (build_with_label "User" {| type := referenced |} World0)
     = Throw "Found duplicate fixed schemas: User"
  /\ effects (snd (build_with_label "User" {| type := referenced |} World0))
     = [MkDir "/tmp/oas-dslXXXXXX"; RmDir "/tmp/oas-dslXXXXXX"]
  /\ fst (build_with_label "User" {| type := flat |} World0) = Ok tt.
Proof.
  repeat split; try reflexivity.
  vm_compute. right. right. left. reflexivity.
Qed.

(** ** External references *)

(** Before resolution: the constructor has bound the file to the empty
    string, and serialization throws, naming the file. *)
Lemma ref_before_resolution w file path options :
  file <> "__proto__" ->
  fst ((r ← oas.ref file path; serialize options r) w)
  = Throw ("External file not found: " +:+ file).
Proof.
  intros Hfile.
  unfold oas.ref, serialize, alloc, deref, gets, lift, modify.
  unfold mbind, M_bind, mret, M_ret. simpl.
  rewrite lookup_app_r by reflexivity. rewrite Nat.sub_diag. simpl.
  unfold ReferenceSchema_toJSonSchema, prop_get, prop_assign.
  destruct (String.eqb_spec file "__proto__") as [E|_]; [contradiction|].
  simpl. rewrite obj_get_set, String.eqb_refl. reflexivity.
Qed.

(** After resolution: a file bound to its resolved path serializes to the
    pointer into that path. *)
Lemma ref_after_resolution ef options b file path targetFilename :
  obj_get ef file = Some targetFilename ->
  targetFilename <> "" ->
  toJSonSchema ef options (ReferenceSchema b file path)
  = Ok [("$ref", JStr (targetFilename +:+ "#" +:+ path))].
Proof.
  intros Hget Hne. simpl. unfold ReferenceSchema_toJSonSchema, prop_get.
  rewrite Hget.
  destruct (String.eqb_spec targetFilename "") as [E|_]; [contradiction|].
  reflexivity.
Qed.

Section Resolver.
Variable env : Collaborators.

Lemma writeFile_externalFiles filename data w :
  externalFiles (snd (writeFile env filename data w)) = externalFiles w.
Proof.
  unfold writeFile, gets, lift, emit, modify, mbind, M_bind.
  destruct (fs_writeFile env filename data (effects w)); reflexivity.
Qed.

Lemma normalizeSchema_externalFiles tempDir type filename target w :
  externalFiles
    (snd (normalizeSchema env tempDir type (source_file filename) target w))
  = externalFiles w.
Proof.
  unfold normalizeSchema, gets, lift, mbind, M_bind, mret, M_ret. simpl.
  destruct (RefParser env type filename (effects w)) as [v|e]; [|reflexivity].
  destruct target as [t|]; simpl; [|reflexivity].
  pose proof (writeFile_externalFiles t
                (prettify env (JSON_stringify env v)) w) as H.
  destruct (writeFile env t (prettify env (JSON_stringify env v)) w)
    as [[u|e] w']; exact H.
Qed.

Lemma prop_assign_get {V : Type} (o : JsObj V) k v k' :
  obj_get o k' <> None ->
  obj_get (prop_assign o k v) k' = if String.eqb k' k then Some v else obj_get o k'.
Proof.
  intros Hk'. unfold prop_assign, obj_has.
  destruct (String.eqb_spec k' k) as [->|Hne].
  - destruct (obj_get o k) eqn:E; [|congruence].
    rewrite andb_false_r, obj_get_set, String.eqb_refl. reflexivity.
  - destruct (String.eqb k "__proto__" && negb _)%bool; [reflexivity|].
    rewrite obj_get_set.
    destruct (String.eqb_spec k' k); [congruence | reflexivity].
Qed.

(** When the loop ends without a throw, every key that the object had is
    bound to one of its target files if the loop visited it, and to what
    it was bound to if not. *)
Lemma resolve_all_binds tempDir keys w w' file :
  resolve_all env tempDir keys w = (Ok tt, w') ->
  obj_get (externalFiles w) file <> None ->
  (In file (map snd keys) ->
   exists j, obj_get (externalFiles w') file
             = Some (targetFilename_of env tempDir j file))
  /\ (~ In file (map snd keys) ->
      obj_get (externalFiles w') file = obj_get (externalFiles w) file).
Proof.
  unfold resolve_all. revert w.
  induction keys as [|[i0 key] keys IH]; intros w H Hfile; simpl in H.
  - injection H as <-. split; [intros [] | reflexivity].
  - unfold mbind, M_bind in H. simpl in H.
    pose proof (normalizeSchema_externalFiles tempDir dereference key
                  (Some (targetFilename_of env tempDir i0 key)) w) as Hef.
    destruct (normalizeSchema env tempDir dereference (source_file key)
                (Some (targetFilename_of env tempDir i0 key)) w) as [[s|e] w1];
      [|discriminate].
    simpl in Hef. unfold modify in H.
    assert (Hget1 :
      obj_get (externalFiles
                 (set_externalFiles
                    (fun o => prop_assign o key (targetFilename_of env tempDir i0 key))
                    w1)) file
      = if String.eqb file key then Some (targetFilename_of env tempDir i0 key)
        else obj_get (externalFiles w) file).
    { simpl. rewrite Hef. apply prop_assign_get, Hfile. }
    assert (Hfile1 :
      obj_get (externalFiles
                 (set_externalFiles
                    (fun o => prop_assign o key (targetFilename_of env tempDir i0 key))
                    w1)) file <> None).
    { rewrite Hget1. destruct (String.eqb file key); [discriminate | exact Hfile]. }
    destruct (IH _ H Hfile1) as [Hin Hout]. simpl.
    destruct (in_dec string_dec file (map snd keys)) as [Hyes|Hno].
    + split; [intros _; exact (Hin Hyes) | tauto].
    + rewrite (Hout Hno), Hget1.
      destruct (String.eqb_spec file key) as [->|Hne].
      * split; [intros _; eexists; reflexivity | tauto].
      * split; [intros [E|E]; [congruence | contradiction] | reflexivity].
Qed.

Lemma forEach_routes_keeps routes w file :
  obj_get (externalFiles w) file <> None ->
  let w1 :=
    snd (forEach
           (fun route =>
              match route with
              | Referenced r =>
                  modify (set_externalFiles
                            (fun o => prop_assign o (ReferencedRoute.ref_file r) ""))
              | Defined _ => mret tt
              end) routes w) in
  fst (forEach
         (fun route =>
            match route with
            | Referenced r =>
                modify (set_externalFiles
                          (fun o => prop_assign o (ReferencedRoute.ref_file r) ""))
            | Defined _ => mret tt
            end) routes w) = Ok tt
  /\ obj_get (externalFiles w1) file <> None.
Proof.
  revert w. induction routes as [|route routes IH]; intros w Hfile; simpl.
  - split; [reflexivity | exact Hfile].
  - unfold mbind, M_bind. destruct route as [r|r]; simpl.
    + apply IH, Hfile.
    + apply IH. simpl. rewrite prop_assign_get by exact Hfile.
      destruct (String.eqb file (ReferencedRoute.ref_file r));
        [discriminate | exact Hfile].
Qed.

Lemma In_indexed {A : Type} (l : list A) (x : A) :
  In x l -> In x (map snd (indexed l)).
Proof.
  unfold indexed.
  assert (E : forall n, map snd (combine (seq n (length l)) l) = l).
  { induction l as [|y l IHl]; intros n; simpl; [reflexivity|].
    f_equal. apply IHl. }
  rewrite E. auto.
Qed.

(** The file of a node that exists when the resolver runs is bound to its
    resolved path once the resolver has returned. *)
Lemma dereferenceExternalSchemas_binds routes tempDir w w' file :
  dereferenceExternalSchemas env routes tempDir w = (Ok tt, w') ->
  obj_get (externalFiles w) file <> None ->
  exists i, obj_get (externalFiles w') file
            = Some (targetFilename_of env tempDir i file).
Proof.
  intros H Hfile. unfold dereferenceExternalSchemas in H.
  unfold mbind at 1, M_bind at 1 in H.
  destruct (forEach_routes_keeps routes w file Hfile) as [Hok Hfile1].
  match type of H with
  | match ?m with _ => _ end = _ => destruct m as [[u|e] w1] eqn:E1
  end; simpl in Hok; [|discriminate].
  simpl in Hfile1.
  unfold mbind, M_bind, gets in H.
  apply (resolve_all_binds tempDir (indexed (obj_keys (externalFiles w1))) w1 w' file).
  - exact H.
  - exact Hfile1.
  - apply In_indexed, obj_get_keys, Hfile1.
Qed.
End Resolver.

(** For every file but ["__proto__"]: the node of [oas.ref] throws when
    serialized before the resolver has run, naming the file, and
    serializes to the pointer into the resolved file once the resolver has
    returned.  ([path.join] never returns the empty string.) *)
Lemma external_reference_round_trip env routes tempDir w file path options :
  file <> "__proto__" ->
  (forall a b, path_join env a b <> "") ->
  let node := length (heap w) in
  let w0 := snd (oas.ref file path w) in
  fst (oas.ref file path w) = Ok node
  /\ heap w0 !! node = Some (ReferenceSchema Base0 file path)
  /\ fst (serialize options node w0) = Throw ("External file not found: " +:+ file)
  /\ forall w',
       dereferenceExternalSchemas env routes tempDir w0 = (Ok tt, w') ->
       exists i,
         toJSonSchema (externalFiles w') options (ReferenceSchema Base0 file path)
         = Ok [("$ref",
                JStr (targetFilename_of env tempDir i file +:+ "#" +:+ path))].
Proof.
  intros Hfile Hjoin node w0.
  split; [reflexivity|].
  split.
  { subst w0 node. simpl. rewrite lookup_app_r by reflexivity.
    rewrite Nat.sub_diag. reflexivity. }
  split.
  { pose proof (ref_before_resolution w file path options Hfile) as H.
    unfold mbind, M_bind in H. exact H. }
  intros w' H.
  assert (Hown : obj_get (externalFiles w0) file <> None).
  { subst w0. simpl. unfold prop_assign.
    destruct (String.eqb_spec file "__proto__") as [E|_]; [contradiction|].
    simpl. rewrite obj_get_set, String.eqb_refl. discriminate. }
  destruct (dereferenceExternalSchemas_binds env routes tempDir w0 w' file H Hown)
    as [i Hi].
  exists i. apply ref_after_resolution; [exact Hi | apply Hjoin].
Qed.

(** C5, at the failing input.  The node for the file ["__proto__"]
    serializes before any resolution, and does not throw: the constructor
    binds nothing (the inherited setter drops the empty string), and the
    lookup finds [Object.prototype], which is truthy.  For
    ["schemas/widget.json"] the same calls throw before resolution and give
    the pointer into the resolved file after it. *)
Theorem proto_reference_is_not_rejected :
  (r ← oas.ref "__proto__" "/definitions/Widget";
   serialize {| type := flat |} r) World0
  = (Ok [("$ref", JStr "[object Object]#/definitions/Widget")],
     {| heap := [ReferenceSchema Base0 "__proto__" "/definitions/Widget"];
        registeredFixedSchemas := []; externalFiles := []; effects := [] |})
  /\ fst ((r ← oas.ref "schemas/widget.json" "/definitions/Widget";
           serialize {| type := flat |} r) World0)
     = Throw "External file not found: schemas/widget.json"
  /\ fst ((r ← oas.ref "schemas/widget.json" "/definitions/Widget";
           dereferenceExternalSchemas test_env [] "/tmp/x";;
           serialize {| type := flat |} r) World0)
     = Ok [("$ref", JStr "/tmp/x/spec-0-widget.json#/definitions/Widget")].
Proof. repeat split; reflexivity. Qed.

Lemma duplicate_label_aborts_referenced_only_witness :
  let w := snd ((s ← oas.string;
                 a ← ExtensibleSchema_label s "User";
                 n ← oas.number;
                 ExtensibleSchema_label n "User") World0) in
  registeredFixedSchemas w = ["User"; "User"]
  /\ (exists message,
        fst (makeSchema test_env (test_params []) {| type := referenced |} w)
        = Throw message
        /\ effects (snd (makeSchema test_env (test_params [])
                           {| type := referenced |} w))
           = effects w ++ [MkDir "/tmp/oas-dslXXXXXX"; RmDir "/tmp/oas-dslXXXXXX"])
  /\ fst (makeSchema test_env (test_params []) {| type := flat |} w)
     = fst (makeSchema test_env (test_params []) {| type := flat |}
              (with_registered [] w)).
Proof.
  intros w. split; [reflexivity|].
  apply (duplicate_label_aborts_referenced_only test_env (test_params []) w
           "User" "/tmp/oas-dslXXXXXX").
  - reflexivity.
  - vm_compute. lia.
  - reflexivity.
Defined.

Lemma external_reference_round_trip_witness :
  let w0 := snd (oas.ref "schemas/widget.json" "/definitions/Widget" World0) in
  fst (serialize {| type := flat |} 0%nat w0)
  = Throw "External file not found: schemas/widget.json"
  /\ forall w',
       dereferenceExternalSchemas test_env [] "/tmp/x" w0 = (Ok tt, w') ->
       exists i,
         toJSonSchema (externalFiles w') {| type := flat |}
           (ReferenceSchema Base0 "schemas/widget.json" "/definitions/Widget")
         = Ok [("$ref",
                JStr (targetFilename_of test_env "/tmp/x" i "schemas/widget.json"
                      +:+ "#" +:+ "/definitions/Widget"))].
Proof.
  intros w0.
  assert (Hjoin : forall a b, path_join test_env a b <> "").
  { intros a b. destruct a; simpl; discriminate. }
  destruct (external_reference_round_trip test_env [] "/tmp/x" World0
              "schemas/widget.json" "/definitions/Widget" {| type := flat |})
    as (_ & _ & Hbefore & Hafter); [discriminate | exact Hjoin |].
  split; [exact Hbefore | exact Hafter].
Defined.

(** ** Serialization returns *)

(** Induction on a node with the hypotheses for the nodes it holds. *)
Section SchemaInduction.
Variable P : Schema -> Prop.
Hypothesis H_string : forall b mn mx re, P (StringField b mn mx re).
Hypothesis H_boolean : forall b, P (BooleanField b).
Hypothesis H_date : forall b fmt, P (DateField b fmt).
Hypothesis H_number : forall b mn mx d, P (NumberField b mn mx d).
Hypothesis H_enum : forall b values, P (EnumField b values).
Hypothesis H_object :
  forall b fields ap,
    Forall (fun kv => P (snd kv)) fields -> P (ObjectField b fields ap).
Hypothesis H_array_none : forall b, P (ArrayField b None).
Hypothesis H_array : forall b items, P items -> P (ArrayField b (Some items)).
Hypothesis H_fixed : forall b schema label, P schema -> P (FixedSchema b schema label).
Hypothesis H_reference : forall b file path, P (ReferenceSchema b file path).
Hypothesis H_oneOf : forall b schemas, Forall P schemas -> P (OneOfSchema b schemas).
Hypothesis H_anyOf : forall b schemas, Forall P schemas -> P (AnyOfSchema b schemas).

Fixpoint Schema_nested_ind (s : Schema) : P s :=
  match s with
  | StringField b mn mx re => H_string b mn mx re
  | BooleanField b => H_boolean b
  | DateField b fmt => H_date b fmt
  | NumberField b mn mx d => H_number b mn mx d
  | EnumField b values => H_enum b values
  | ObjectField b fields ap =>
      H_object b fields ap
        ((fix go (fs : JsObj Schema) : Forall (fun kv => P (snd kv)) fs :=
            match fs with
            | [] => @List.Forall_nil _ _
            | kv :: r => @List.Forall_cons _ _ _ _ (Schema_nested_ind (snd kv)) (go r)
            end) fields)
  | ArrayField b None => H_array_none b
  | ArrayField b (Some items) => H_array b items (Schema_nested_ind items)
  | FixedSchema b schema label => H_fixed b schema label (Schema_nested_ind schema)
  | ReferenceSchema b fl pth => H_reference b fl pth
  | OneOfSchema b schemas =>
      H_oneOf b schemas
        ((fix go (ss : list Schema) : Forall P ss :=
            match ss with
            | [] => @List.Forall_nil _ _
            | s' :: r => @List.Forall_cons _ _ _ _ (Schema_nested_ind s') (go r)
            end) schemas)
  | AnyOfSchema b schemas =>
      H_anyOf b schemas
        ((fix go (ss : list Schema) : Forall P ss :=
            match ss with
            | [] => @List.Forall_nil _ _
            | s' :: r => @List.Forall_cons _ _ _ _ (Schema_nested_ind s') (go r)
            end) schemas)
  end.
End SchemaInduction.




(** ** The sort of the engine *)

(** A list with ascending keys that keeps, key by key, the elements of
    [routes] in their order is [sortedRoutes routes]: the result does not
    depend on which stable algorithm [Array.prototype.sort] runs. *)
Theorem sortedRoutes_unique :
  forall routes sorted : list Route,
    StronglySorted (fun a b => order_key a <= order_key b) sorted ->
    (forall k,
       List.filter (fun a => order_key a =? k) sorted
       = List.filter (fun a => order_key a =? k) routes) ->
    sorted = sortedRoutes routes.
Proof.
  intros routes sorted Hsorted Hstable.
  apply (sorted_stable_unique order_key); [exact Hsorted | apply Array_sort_sorted |].
  intros k. rewrite (Hstable k). symmetry. apply Array_sort_stable.
Qed.

Lemma sortedRoutes_unique_witness :
  [ref_route "/c" (Some 0); ref_route "/b" (Some 1); ref_route "/a" None]
  = sortedRoutes [ref_route "/a" None; ref_route "/b" (Some 1);
                  ref_route "/c" (Some 0)].
Proof.
  apply sortedRoutes_unique.
  - repeat constructor; vm_compute; discriminate.
  - intros k. unfold List.filter.
    change (order_key (ref_route "/c" (Some 0))) with 0.
    change (order_key (ref_route "/b" (Some 1))) with 1.
    change (order_key (ref_route "/a" None)) with 10000.
    destruct (Z.eqb_spec 0 k), (Z.eqb_spec 1 k), (Z.eqb_spec 10000 k);
      try reflexivity; lia.
Defined.

(** * Further properties *)

(** ** Strings *)

Lemma str_app_cons (c : ascii) (a b : string) :
  String c a +:+ b = String c (a +:+ b).
Proof. reflexivity. Qed.

Lemma str_app_nil_r (s : string) : s +:+ "" = s.
Proof.
  induction s as [|c s IH]; [reflexivity|]. rewrite str_app_cons, IH. reflexivity.
Qed.

Lemma str_app_assoc (a b c : string) : (a +:+ b) +:+ c = a +:+ (b +:+ c).
Proof.
  induction a as [|x a IH]; [reflexivity|]. rewrite !str_app_cons, IH. reflexivity.
Qed.

Lemma all_chars_app p a b :
  all_chars p (a +:+ b) = (all_chars p a && all_chars p b)%bool.
Proof.
  induction a as [|x a IH]; [reflexivity|].
  rewrite str_app_cons. simpl. rewrite IH, andb_assoc. reflexivity.
Qed.

(** ** Names of components *)

Lemma schema_name_char_underscore : schema_name_char "_"%char = true.
Proof. reflexivity. Qed.

Lemma toSchemaName_chars label : all_chars schema_name_char (toSchemaName label) = true.
Proof.
  induction label as [|c r IH]; simpl; [reflexivity|].
  rewrite IH, andb_true_r.
  destruct (schema_name_char c) eqn:E; [exact E | reflexivity].
Qed.

Lemma toSchemaName_fixpoint label :
  all_chars schema_name_char label = true -> toSchemaName label = label.
Proof.
  induction label as [|c r IH]; simpl; [reflexivity|].
  intros H. apply andb_true_iff in H as [Hc Hr].
  rewrite Hc, (IH Hr). reflexivity.
Qed.

(** The name of a component is made of letters, digits, [-], [.] and [_],
    as long as the label, and normalizing it again changes nothing.  Hence
    the pointer that a labelled node emits in referenced mode names the
    very key under which [toComponent] defines the node, whatever the
    label. *)
Theorem component_key_is_ref_target :
  forall (externalFiles : JsObj string) (schema : Schema) (label : string),
    all_chars schema_name_char (toSchemaName label) = true
    /\ String.length (toSchemaName label) = String.length label
    /\ toSchemaName (toSchemaName label) = toSchemaName label
    /\ exists key,
         toJSonSchema externalFiles {| type := referenced |}
           (FixedSchema_new schema label)
         = Ok [("$ref", JStr ("#/components/schemas/" +:+ key))]
         /\ forall b inner l v,
              FixedSchema_new schema label = FixedSchema b inner l ->
              toJSonSchema externalFiles {| type := referenced |} inner = Ok v ->
              toComponent externalFiles {| type := referenced |} inner l
              = Ok [(key, JObj v)].
Proof.
  intros ef schema label.
  split; [apply toSchemaName_chars|].
  split.
  { induction label as [|c r IH]; simpl; [reflexivity|]. f_equal. exact IH. }
  split; [apply toSchemaName_fixpoint, toSchemaName_chars|].
  exists (toSchemaName label). split; [reflexivity|].
  intros b inner l v E Hv. injection E as <- <- <-.
  unfold toComponent. rewrite Hv. simpl.
  rewrite (toSchemaName_fixpoint _ (toSchemaName_chars label)).
  unfold obj_lit, obj_assign, obj_set. simpl.
  destruct (is_array_index (toSchemaName label)); reflexivity.
Qed.

(** ** File names *)

Lemma getFilename_from_spec path :
  forall current x,
    current = x +:+ path ->
    no_slash x = true ->
    no_slash (getFilename_from current path) = true
    /\ exists prefix,
         current = prefix +:+ getFilename_from current path
         /\ (prefix = "" \/ exists q, prefix = q +:+ "/").
Proof.
  induction path as [|c r IH]; intros current x E Hx; simpl.
  - subst current. rewrite str_app_nil_r. split; [exact Hx|].
    exists "". split; [reflexivity | left; reflexivity].
  - destruct (is_slash c) eqn:Hc.
    + destruct (IH r "" eq_refl eq_refl) as (Hns & prefix & Hp & Hends).
      split; [exact Hns|].
      exists (x +:+ "/" +:+ prefix). split.
      * subst current. unfold is_slash in Hc. apply Ascii.eqb_eq in Hc. subst c.
        rewrite !str_app_assoc. f_equal.
        change (String "/" r = "/" +:+ (prefix +:+ getFilename_from r r)).
        rewrite str_app_cons. f_equal. exact Hp.
      * right. destruct Hends as [->|[q ->]].
        -- exists x. rewrite str_app_nil_r. reflexivity.
        -- exists (x +:+ "/" +:+ q). rewrite !str_app_assoc. reflexivity.
    + apply (IH current (x +:+ String c "")).
      * subst current. rewrite str_app_assoc. reflexivity.
      * unfold no_slash in *. rewrite all_chars_app, Hx. simpl. rewrite Hc.
        reflexivity.
Qed.

Lemma getFilename_from_no_slash path current :
  no_slash path = true -> getFilename_from current path = current.
Proof.
  revert current. unfold no_slash.
  induction path as [|c r IH]; intros current H; simpl; [reflexivity|].
  simpl in H. apply andb_true_iff in H as [Hc Hr].
  destruct (is_slash c); [discriminate | apply IH, Hr].
Qed.

(** [getFilename] returns the part of the path after its last slash: the
    result has no slash, the path is a prefix that is empty or ends in a
    slash followed by the result, and a path without a slash is returned
    as it is. *)
Theorem getFilename_is_last_segment :
  forall path : string,
    no_slash (getFilename path) = true
    /\ (exists prefix,
          path = prefix +:+ getFilename path
          /\ (prefix = "" \/ exists q, prefix = q +:+ "/"))
    /\ (no_slash path = true -> getFilename path = path).
Proof.
  intros path. unfold getFilename.
  destruct (getFilename_from_spec path path "" eq_refl eq_refl) as [H1 H2].
  split; [exact H1|]. split; [exact H2|].
  apply getFilename_from_no_slash.
Qed.

(** ** Tags *)

Lemma segment_no_slash s : no_slash (segment s) = true.
Proof.
  unfold no_slash. induction s as [|c r IH]; simpl; [reflexivity|].
  destruct (is_slash c) eqn:E; simpl; [reflexivity|]. rewrite E, IH. reflexivity.
Qed.

Lemma segment_split s :
  exists rest, s = segment s +:+ rest /\ (rest = "" \/ starts_with_slash rest = true).
Proof.
  induction s as [|c r [rest [IH Hrest]]]; simpl.
  - exists "". split; [reflexivity | left; reflexivity].
  - destruct (is_slash c) eqn:E.
    + exists (String c r). split; [reflexivity | right; exact E].
    + exists rest. split; [|exact Hrest].
      rewrite str_app_cons. f_equal. exact IH.
Qed.

Lemma pathAsTag_Some path tag :
  pathAsTag path = Some tag ->
  tag <> ""
  /\ no_slash tag = true
  /\ exists before after,
       path = before +:+ "/" +:+ tag +:+ after
       /\ pathAsTag (before +:+ "/") = None
       /\ (after = "" \/ starts_with_slash after = true).
Proof.
  induction path as [|c r IH]; simpl; [discriminate|].
  destruct (is_slash c) eqn:Hc.
  - destruct (segment r) as [|c' seg] eqn:Hseg.
    + intros H. destruct (IH H) as (Hne & Hns & before & after & Hp & Hfirst & Hafter).
      split; [exact Hne|]. split; [exact Hns|].
      exists (String c before), after. split; [|split; [|exact Hafter]].
      * rewrite str_app_cons. f_equal. exact Hp.
      * rewrite str_app_cons. simpl. rewrite Hc.
        assert (E : segment (before +:+ "/") = "").
        { destruct before as [|x b]; [reflexivity|].
          rewrite Hp, str_app_cons in Hseg. rewrite str_app_cons. simpl in *.
          destruct (is_slash x); [reflexivity | discriminate]. }
        rewrite E. exact Hfirst.
    + intros H. injection H as <-.
      split; [discriminate|].
      split; [rewrite <- Hseg; apply segment_no_slash|].
      destruct (segment_split r) as (rest & Hr & Hrest).
      exists "", rest. split; [|split; [reflexivity | exact Hrest]].
      unfold is_slash in Hc. apply Ascii.eqb_eq in Hc. subst c.
      rewrite <- Hseg.
      change (String "/" r = String "/" (segment r +:+ rest)).
      f_equal. exact Hr.
  - intros H. destruct (IH H) as (Hne & Hns & before & after & Hp & Hfirst & Hafter).
    split; [exact Hne|]. split; [exact Hns|].
    exists (String c before), after. split; [|split; [|exact Hafter]].
    + rewrite str_app_cons. f_equal. exact Hp.
    + rewrite str_app_cons. simpl. rewrite Hc. exact Hfirst.
Qed.

Lemma pathAsTag_None before c after :
  is_slash c = false -> pathAsTag (before +:+ "/" +:+ String c after) <> None.
Proof.
  intros Hc. induction before as [|x before IH].
  - change ("" +:+ "/" +:+ String c after) with (String "/" (String c after)).
    simpl. rewrite Hc. discriminate.
  - rewrite str_app_cons. simpl.
    destruct (is_slash x); [|exact IH].
    destruct (segment _); [exact IH | discriminate].
Qed.

(** The tags of an operation are the tags of the route when it has any,
    an empty list included; otherwise the one tag that is the first
    non-empty segment of the path; and no [tags] at all when the path has
    no such segment.  That segment is not empty, has no slash, stands in
    the path right after a slash and ends with the path or before the next
    slash, and nothing before it gives a tag; a path in which some slash
    is followed by another character has one. *)
Theorem operation_tags :
  forall (externalFiles : JsObj string) (options : Options)
         (route : DefinedRoute.t) (j : JsonSchema),
    routeToJsonSchema externalFiles options (Defined route) = Ok j ->
    obj_get j "tags" =
      match DefinedRoute.tags route with
      | Some tags => Some (JArr (map JStr tags))
      | None => (fun tag => JArr [JStr tag]) <$> pathAsTag (DefinedRoute.path route)
      end
    /\ (forall tag,
          pathAsTag (DefinedRoute.path route) = Some tag ->
          tag <> "" /\ no_slash tag = true
          /\ exists before after,
               DefinedRoute.path route = before +:+ "/" +:+ tag +:+ after
               /\ pathAsTag (before +:+ "/") = None
               /\ (after = "" \/ starts_with_slash after = true))
    /\ (forall before c after,
          DefinedRoute.path route = before +:+ "/" +:+ String c after ->
          is_slash c = false ->
          pathAsTag (DefinedRoute.path route) <> None).
Proof.
  intros ef options route j H. split; [|split].
  - unfold routeToJsonSchema in H. unfold mbind, Result_bind in H.
    destruct (route_parameters ef options route) as [parameters|]; [|discriminate].
    match type of H with
    | match ?b with _ => _ end = _ => destruct b as [requestBody|]; [|discriminate]
    end.
    destruct (toResponseSchema ef options _) as [success|]; [|discriminate].
    destruct (reduce _ _ _) as [errors|]; [|discriminate].
    simpl in H. ok_inv H. rewrite obj_get_ignoreUndefined.
    destruct (DefinedRoute.tags route) as [tags|]; [reflexivity|].
    destruct (pathAsTag (DefinedRoute.path route)); reflexivity.
  - intros tag. apply pathAsTag_Some.
  - intros before c after -> Hc. apply pathAsTag_None, Hc.
Qed.

Lemma operation_tags_witness :
  exists j,
    routeToJsonSchema [] {| type := flat |} (Defined widget_route) = Ok j
    /\ obj_get j "tags" = Some (JArr [JStr "widgets"]).
Proof.
  eexists. split; [reflexivity|].
  destruct (operation_tags [] {| type := flat |} widget_route _ eq_refl) as [H _].
  exact H.
Defined.

(** ** Responses and their headers *)

Lemma obj_get_rest {V : Type} (ks : list string) (o : JsObj V) (k : string) :
  obj_get (obj_rest ks o) k =
  if existsb (String.eqb k) ks then None else obj_get o k.
Proof.
  unfold obj_rest. induction o as [|[k0 v0] o IH]; simpl.
  - destruct (existsb (String.eqb k) ks); reflexivity.
  - destruct (existsb (String.eqb k0) ks) eqn:E0; simpl.
    + rewrite IH. destruct (String.eqb_spec k k0) as [->|_]; [|reflexivity].
      rewrite E0. reflexivity.
    + rewrite IH. destruct (String.eqb_spec k k0) as [->|_]; [|reflexivity].
      rewrite E0. reflexivity.
Qed.

Lemma asResponseHeaders_reduce ef options fields keys :
  forall acc h,
    reduce
      (fun acc key =>
         match obj_get fields key with
         | Some field =>
             schema ← toJSonSchema ef options field;
             mret (obj_set acc key
                     (JObj (obj_lit
                        [ ("schema", JObj (obj_lit [("type", get schema "type")]));
                          ("description", get schema "description") ])))
         | None => Throw "TypeError: not an object"
         end) keys acc = Ok h ->
    forall key,
      (In key keys ->
       exists field frag,
         obj_get fields key = Some field
         /\ toJSonSchema ef options field = Ok frag
         /\ obj_get h key = Some (header_of frag))
      /\ (~ In key keys -> obj_get h key = obj_get acc key).
Proof.
  induction keys as [|x keys IH]; intros acc h H key; simpl in H.
  - injection H as <-. split; [intros [] | reflexivity].
  - destruct (obj_get fields x) as [field|] eqn:Ex; [|discriminate].
    unfold mbind, Result_bind in H.
    destruct (toJSonSchema ef options field) as [frag|] eqn:Ef; [|discriminate].
    simpl in H. destruct (IH _ _ H key) as [Hin Hout].
    destruct (in_dec string_dec key keys) as [Hyes|Hno].
    + split; [intros _; exact (Hin Hyes) | simpl; tauto].
    + rewrite (Hout Hno), obj_get_set.
      destruct (String.eqb_spec key x) as [->|Hne].
      * split; [|simpl; tauto]. intros _. exists field, frag.
        repeat split; assumption || reflexivity.
      * split; [intros [E|E]; [congruence | contradiction] | reflexivity].
Qed.

(** [asResponseHeaders] gives one entry per field, under the name of the
    field: the [type] and the [description] of the fragment of the field,
    and nothing else of it.  In referenced mode the fragment of a labelled
    field is a pointer, which has neither: its entry is
    [{schema: {type: undefined}, description: undefined}]. *)
Theorem response_headers :
  forall (externalFiles : JsObj string) (options : Options)
         (this : ObjectFieldObj) (h : JsObj JsVal),
    ObjectField_asResponseHeaders externalFiles options this = Ok h ->
    (forall key, obj_get h key <> None <-> obj_get (o_fields this) key <> None)
    /\ (forall key field,
          obj_get (o_fields this) key = Some field ->
          exists frag,
            toJSonSchema externalFiles options field = Ok frag
            /\ obj_get h key = Some (header_of frag))
    /\ (forall key b schema label,
          type options = referenced ->
          obj_get (o_fields this) key = Some (FixedSchema b schema label) ->
          obj_get h key
          = Some (JObj [ ("schema", JObj [("type", JUndefined)]);
                         ("description", JUndefined) ])).
Proof.
  intros ef options this h H. unfold ObjectField_asResponseHeaders in H.
  pose proof (asResponseHeaders_reduce ef options (o_fields this) _ _ _ H) as Hspec.
  assert (Hfield : forall key field,
            obj_get (o_fields this) key = Some field ->
            exists frag,
              toJSonSchema ef options field = Ok frag
              /\ obj_get h key = Some (header_of frag)).
  { intros key field Hget. destruct (Hspec key) as [Hin _].
    destruct Hin as (field' & frag & Hget' & Hfrag & Hh).
    { apply obj_get_keys. congruence. }
    rewrite Hget in Hget'. injection Hget' as <-. exists frag. split; assumption. }
  split; [|split; [exact Hfield|]].
  - intros key. destruct (Hspec key) as [Hin Hout].
    destruct (in_dec string_dec key (obj_keys (o_fields this))) as [Hyes|Hno].
    + destruct (Hin Hyes) as (field & frag & Hget & _ & Hh).
      rewrite Hget, Hh. split; discriminate.
    + rewrite (Hout Hno). simpl. rewrite <- obj_get_keys. tauto.
  - intros key b schema label Hmode Hget.
    destruct (Hfield key _ Hget) as (frag & Hfrag & Hh).
    simpl in Hfrag. rewrite Hmode in Hfrag. injection Hfrag as <-. exact Hh.
Qed.

Lemma response_headers_witness :
  let this :=
    {| o_base := Base0;
       o_fields :=
         [ ("x-rate", NumberField (set__description (Some "Calls left") Base0)
                        None None None);
           ("x-owner", FixedSchema_new (StringField Base0 None None None) "Owner") ];
       o_additionalProperties := None |} in
  let h :=
    [ ("x-rate", JObj [ ("schema", JObj [("type", JStr "number")]);
                        ("description", JStr "Calls left") ]);
      ("x-owner", JObj [ ("schema", JObj [("type", JUndefined)]);
                         ("description", JUndefined) ]) ] in
  ObjectField_asResponseHeaders [] {| type := referenced |} this = Ok h
  /\ obj_get h "x-owner"
     = Some (JObj [ ("schema", JObj [("type", JUndefined)]);
                    ("description", JUndefined) ]).
Proof.
  intros this h. split; [reflexivity|].
  destruct (response_headers [] {| type := referenced |} this h eq_refl)
    as (_ & _ & Hfixed).
  exact (Hfixed "x-owner" _ _ _ eq_refl eq_refl).
Defined.

(** A response without [schema] serializes to its description alone: its
    headers and examples, if any, are dropped.  A response with a schema
    has the fragment of the schema and the examples under
    [content["application/json"]], and [headers] exactly when the response
    has headers. *)
Theorem response_schema_decides :
  forall (externalFiles : JsObj string) (options : Options)
         (response : RouteResponse.t),
    match RouteResponse.schema response with
    | None =>
        toResponseSchema externalFiles options response
        = Ok [("description", JStr (RouteResponse.description response))]
    | Some schema =>
        forall j,
          toResponseSchema externalFiles options response = Ok j ->
          obj_get j "description"
          = Some (JStr (RouteResponse.description response))
          /\ (exists frag,
                toJSonSchema externalFiles options schema = Ok frag
                /\ obj_get j "content"
                   = Some (JObj
                       [ ("application/json",
                          JObj [ ("schema", JObj frag);
                                 ("examples",
                                   of_option id (RouteResponse.examples response)) ]) ]))
          /\ match RouteResponse.headers response with
             | None => obj_get j "headers" = None
             | Some headers =>
                 exists h,
                   ObjectField_asResponseHeaders externalFiles options headers = Ok h
                   /\ obj_get j "headers" = Some (JObj h)
             end
    end.
Proof.
  intros ef options response. unfold toResponseSchema.
  destruct (RouteResponse.schema response) as [schema|]; [|reflexivity].
  intros j H. unfold mbind, Result_bind in H.
  destruct (RouteResponse.headers response) as [headers|].
  - destruct (ObjectField_asResponseHeaders ef options headers) as [h|]; [|discriminate].
    simpl in H.
    destruct (toJSonSchema ef options schema) as [frag|]; [|discriminate].
    ok_inv H. rewrite !obj_get_ignoreUndefined.
    split; [reflexivity|]. split; [exists frag; split; reflexivity|].
    exists h. split; reflexivity.
  - simpl in H.
    destruct (toJSonSchema ef options schema) as [frag|]; [|discriminate].
    ok_inv H. rewrite !obj_get_ignoreUndefined.
    split; [reflexivity|]. split; [exists frag; split; reflexivity|]. reflexivity.
Qed.

(** ** The schema of a parameter *)

Lemma parameter_of_schema ef options fields parameterType key d :
  parameter_of ef options fields parameterType key = Ok d ->
  exists field frag o sch,
    obj_get fields key = Some field
    /\ toJSonSchema ef options (unwrap_fixed field) = Ok frag
    /\ d = JObj o
    /\ get o "description" = get frag "description"
    /\ get o "explode" = of_option JBool (_explode (base field))
    /\ get o "schema" = JObj sch
    /\ obj_get o "example" = None
    /\ forall k,
         obj_get sch k =
         if existsb (String.eqb k) parameter_stripped then None else obj_get frag k.
Proof.
  unfold parameter_of. destruct (obj_get fields key) as [field|]; [|discriminate].
  unfold mbind, Result_bind.
  destruct (toJSonSchema ef options (unwrap_fixed field)) as [frag|] eqn:Ef;
    [|discriminate].
  intros H. injection H as <-. exists field, frag. eexists. eexists.
  split; [reflexivity|]. split; [exact Ef|]. split; [reflexivity|].
  split; [reflexivity|]. split; [reflexivity|]. split; [reflexivity|].
  split; [reflexivity|]. intros k. apply obj_get_rest.
Qed.

(** The descriptor of a parameter carries the description of the fragment
    of its field, and under [schema] that fragment without its
    [description], [example] and [required]; the descriptor itself has no
    [example].  The fragment is that of the field, or, for a labelled
    field, that of the node under the label: a parameter is never a
    pointer to a component, in referenced mode either. *)
Theorem parameter_schema_is_stripped :
  forall (externalFiles : JsObj string) (options : Options)
         (this : ObjectFieldObj) (parameterType : ParameterType) (l : list JsVal),
    ObjectField_asParameterList externalFiles options this parameterType = Ok l ->
    Forall2
      (fun key d =>
         exists field frag o sch,
           obj_get (o_fields this) key = Some field
           /\ toJSonSchema externalFiles options
                match field with
                | FixedSchema _ schema _ => schema
                | _ => field
                end = Ok frag
           /\ d = JObj o
           /\ get o "description" = get frag "description"
           /\ get o "explode" = of_option JBool (_explode (base field))
           /\ get o "schema" = JObj sch
           /\ obj_get o "example" = None
           /\ obj_get sch "description" = None
           /\ obj_get sch "example" = None
           /\ obj_get sch "required" = None
           /\ forall k,
                k <> "description" -> k <> "example" -> k <> "required" ->
                obj_get sch k = obj_get frag k)
      (obj_keys (o_fields this)) l.
Proof.
  intros ef options this parameterType l H. apply mapM_Ok in H.
  eapply Forall2_impl; [exact H|].
  intros key d Hd. apply parameter_of_schema in Hd.
  destruct Hd as (field & frag & o & sch & H1 & H2 & H3 & H4 & H5 & H6 & H7 & H8).
  exists field, frag, o, sch.
  split; [exact H1|]. split; [exact H2|]. split; [exact H3|].
  split; [exact H4|]. split; [exact H5|]. split; [exact H6|]. split; [exact H7|].
  split; [rewrite H8; reflexivity|]. split; [rewrite H8; reflexivity|].
  split; [rewrite H8; reflexivity|].
  intros k Hd He Hr. rewrite H8. simpl.
  destruct (String.eqb_spec k "description"); [contradiction|].
  destruct (String.eqb_spec k "example"); [contradiction|].
  destruct (String.eqb_spec k "required"); [contradiction|]. reflexivity.
Qed.

Lemma parameter_schema_is_stripped_witness :
  let user :=
    FixedSchema_new
      (StringField
         (set__example (JStr "u-1") (set__description (Some "The user") Base0))
         (Some 3) None None) "UserId" in
  let this :=
    {| o_base := Base0; o_fields := [("userId", user)];
       o_additionalProperties := None |} in
  let l :=
    [ JObj [ ("description", JStr "The user"); ("name", JStr "userId");
             ("in", JStr "query"); ("explode", JUndefined);
             ("required", JUndefined);
             ("schema", JObj [("type", JStr "string"); ("minLength", JNum 3)]) ] ] in
  ObjectField_asParameterList [] {| type := referenced |} this PQuery = Ok l
  /\ Forall2
       (fun key d =>
          exists o sch,
            d = JObj o /\ get o "schema" = JObj sch
            /\ obj_get sch "example" = None /\ obj_get sch "$ref" = None)
       ["userId"] l.
Proof.
  intros user this l. split; [reflexivity|].
  pose proof (parameter_schema_is_stripped [] {| type := referenced |} this PQuery l
                eq_refl) as H.
  eapply Forall2_impl; [exact H|]. clear H.
  intros key d (field & frag & o & sch & H1 & H2 & H3 & H4 & H5 & H6 & H7 & H8 & H9
                & H10 & H11).
  exists o, sch. split; [exact H3|]. split; [exact H6|]. split; [exact H9|].
  rewrite H11 by discriminate.
  simpl in H1. destruct (String.eqb key "userId"); [|discriminate].
  injection H1 as <-. vm_compute in H2. injection H2 as <-. reflexivity.
Defined.

(** ** Components *)

Lemma find_app {A : Type} (p : A -> bool) (a b : list A) :
  find p (a ++ b) = match find p a with Some x => Some x | None => find p b end.
Proof.
  induction a as [|x a IH]; simpl; [reflexivity|].
  destruct (p x); [reflexivity | exact IH].
Qed.

Lemma obj_lit_single {V : Type} (k : string) (v : V) : obj_lit [(k, v)] = [(k, v)].
Proof.
  unfold obj_lit, obj_assign, obj_set. simpl.
  destruct (is_array_index k); reflexivity.
Qed.

Lemma collectRefSchemasForSchema_fixed schema :
  Forall (fun n => is_fixed n = true) (collectRefSchemasForSchema schema).
Proof.
  apply (Schema_nested_ind
           (fun s => Forall (fun n => is_fixed n = true)
                       (collectRefSchemasForSchema s)));
    try (intros; simpl; constructor).
  - (* object *)
    intros b fields ap HF. simpl.
    induction HF as [|[key f] fs Hf _ IH]; [constructor|].
    apply Forall_app. split; [exact Hf | exact IH].
  - (* array *)
    intros b items IH. exact IH.
  - (* fixed *)
    reflexivity.
  - assumption.
Qed.

Lemma collect_optional_fixed schemas :
  Forall (fun n => is_fixed n = true) (flat_map collect_optional schemas).
Proof.
  induction schemas as [|o schemas IH]; simpl; [constructor|].
  apply Forall_app. split; [|exact IH].
  destruct o as [s|]; simpl; [apply collectRefSchemasForSchema_fixed | constructor].
Qed.

Lemma collectRefSchemasForRoute_fixed route :
  Forall (fun n => is_fixed n = true) (collectRefSchemasForRoute route).
Proof.
  destruct route as [r|r]; unfold collectRefSchemasForRoute; [|constructor].
  destruct (DefinedRoute.validate r) as [validate|]; [|constructor].
  apply collect_optional_fixed.
Qed.

Lemma toSchemaObject_reduce ef options schemas :
  forall acc c,
    reduce
      (fun acc schema =>
         match schema with
         | FixedSchema _ inner label =>
             c ← toComponent ef options inner label;
             mret (obj_assign acc c)
         | _ => Throw "TypeError: schema.toComponent is not a function"
         end) schemas acc = Ok c ->
    forall key,
      match find (defines key) (rev schemas) with
      | Some (FixedSchema _ inner _) =>
          exists v, toJSonSchema ef options inner = Ok v
                    /\ obj_get c key = Some (JObj v)
      | Some _ => False
      | None => obj_get c key = obj_get acc key
      end.
Proof.
  induction schemas as [|x schemas IH]; intros acc c H key; simpl in H.
  - injection H as <-. reflexivity.
  - destruct x as [| | | | | | |b inner label| | |]; try discriminate.
    unfold toComponent, mbind, Result_bind in H.
    destruct (toJSonSchema ef options inner) as [v|] eqn:Ev; [|discriminate].
    simpl in H. rewrite obj_lit_single in H.
    specialize (IH _ _ H key). simpl. rewrite find_app.
    destruct (find (defines key) (rev schemas)) as [n|]; [exact IH|].
    rewrite IH. simpl. unfold obj_assign. simpl. rewrite obj_get_set.
    destruct (String.eqb_spec (toSchemaName label) key) as [E|Hne].
    + exists v. split; [exact Ev|]. rewrite <- E, String.eqb_refl. reflexivity.
    + destruct (String.eqb_spec key (toSchemaName label)); [congruence | reflexivity].
Qed.

(** What the collector finds are labelled nodes, so that each has a
    component to give.  In [components.schemas] a key holds the fragment of
    the node under the label of the last collected node with that name:
    a node collected later replaces, without notice, one collected earlier
    under the same name; and a name that no collected node has is no key. *)
Theorem components_last_wins :
  forall (externalFiles : JsObj string) (options : Options)
         (routes : list Route) (components : JsObj JsVal),
    toSchemaObject externalFiles options
      (flat_map collectRefSchemasForRoute routes) = Ok components ->
    Forall (fun n => is_fixed n = true) (flat_map collectRefSchemasForRoute routes)
    /\ forall key,
         match find (defines key)
                 (rev (flat_map collectRefSchemasForRoute routes)) with
         | Some (FixedSchema _ inner _) =>
             exists v, toJSonSchema externalFiles options inner = Ok v
                       /\ obj_get components key = Some (JObj v)
         | Some _ => False
         | None => obj_get components key = None
         end.
Proof.
  intros ef options routes components H. split.
  - clear H. induction routes as [|route routes IH]; simpl; [constructor|].
    apply Forall_app. split; [apply collectRefSchemasForRoute_fixed | exact IH].
  - intros key. exact (toSchemaObject_reduce ef options _ _ _ H key).
Qed.

Lemma components_last_wins_witness :
  let first := FixedSchema_new (StringField Base0 None None None) "User" in
  let second := FixedSchema_new (NumberField Base0 None None None) "User" in
  toSchemaObject [] {| type := referenced |}
    (flat_map collectRefSchemasForRoute [body_route first second])
  = Ok [("User", JObj [("type", JStr "number")])]
  /\ exists v,
       toJSonSchema [] {| type := referenced |} (NumberField Base0 None None None)
       = Ok v
       /\ obj_get [("User", JObj [("type", JStr "number")])] "User" = Some (JObj v).
Proof.
  intros first second. split; [reflexivity|].
  destruct (components_last_wins [] {| type := referenced |}
              [body_route first second] _ eq_refl) as [_ H].
  exact (H "User").
Defined.

(** What the collector passes by: the alternatives of a union, and the
    responses of a route that has no [validate].  A labelled node met only
    there is pointed to by the fragment, in referenced mode, and has no
    component. *)
Theorem collector_misses :
  forall (externalFiles : JsObj string) (schema : Schema) (label : string),
    let node := FixedSchema_new schema label in
    let pointer :=
      JObj [("$ref", JStr ("#/components/schemas/" +:+ toSchemaName label))] in
    (forall b,
       toJSonSchema externalFiles {| type := referenced |} (OneOfSchema b [node])
       = Ok [("oneOf", JArr [pointer])]
       /\ collectRefSchemasForSchema (OneOfSchema b [node]) = []
       /\ toJSonSchema externalFiles {| type := referenced |} (AnyOfSchema b [node])
          = Ok [("anyOf", JArr [pointer])]
       /\ collectRefSchemasForSchema (AnyOfSchema b [node]) = [])
    /\ (forall route,
          DefinedRoute.validate route = None ->
          RouteResponse.schema (DefinedRoute.successResponse route) = Some node ->
          RouteResponse.headers (DefinedRoute.successResponse route) = None ->
          toResponseSchema externalFiles {| type := referenced |}
            (DefinedRoute.successResponse route)
          = Ok [ ("description",
                   JStr (RouteResponse.description
                           (DefinedRoute.successResponse route)));
                 ("content",
                   JObj [ ("application/json",
                           JObj [ ("schema", pointer);
                                  ("examples",
                                    of_option id
                                      (RouteResponse.examples
                                         (DefinedRoute.successResponse route))) ]) ]) ]
          /\ toSchemaObject externalFiles {| type := referenced |}
               (collectRefSchemasForRoute (Defined route)) = Ok []).
Proof.
  intros ef schema label node pointer. split.
  - intros b. repeat split; reflexivity.
  - intros route Hvalidate Hschema Hheaders. split.
    + unfold toResponseSchema. rewrite Hschema, Hheaders. reflexivity.
    + unfold collectRefSchemasForRoute. rewrite Hvalidate. reflexivity.
Qed.

(** ** Duplicate labels: no false alarm *)

Lemma str_app_not_empty (a : string) : a +:+ "1" <> "".
Proof. destruct a; discriminate. Qed.

Lemma count_up_text acc s :
  inherited s = true ->
  obj_get acc s = None ->
  exists t, count_up acc s = JStr (t +:+ "1").
Proof.
  intros Hs E. unfold count_up, prop_get. rewrite E, Hs.
  eexists. reflexivity.
Qed.

Lemma count_up_string acc s t :
  t <> "" ->
  obj_get acc s = Some (JStr t) ->
  count_up acc s = JStr (t +:+ "1").
Proof.
  intros Ht E. unfold count_up, prop_get. rewrite E.
  destruct (String.eqb_spec t "") as [E'|_]; [contradiction | reflexivity].
Qed.

(** For a name that [Object.prototype] knows, the counting object holds
    no number. *)
Lemma schemaCount_inherited registered s :
  inherited s = true ->
  obj_get (schemaCount registered) s = None
  \/ exists t, t <> "" /\ obj_get (schemaCount registered) s = Some (JStr t).
Proof.
  intros Hs. unfold schemaCount.
  induction registered as [|x l IH] using rev_ind; [left; reflexivity|].
  rewrite fold_left_app. simpl. rewrite obj_get_set.
  destruct (String.eqb_spec s x) as [E|Hne]; [|exact IH].
  subst x. right.
  destruct IH as [E | (t & Ht & E)].
  - destruct (count_up_text _ s Hs E) as [t ->].
    eexists. split; [apply str_app_not_empty | reflexivity].
  - rewrite (count_up_string _ s t Ht E).
    eexists. split; [apply str_app_not_empty | reflexivity].
Qed.

(** Whatever the labels, a label that [getDuplicateFixedSchemas] reports
    was registered twice or more: a registry without repetition reports
    nothing, and a build in referenced mode is never refused for labels
    that are all different. *)
Theorem getDuplicateFixedSchemas_sound :
  forall (registered : list string),
    (forall s,
       In s (getDuplicateFixedSchemas registered) ->
       (2 <= occurrences s registered)%nat)
    /\ (List.NoDup registered -> getDuplicateFixedSchemas registered = []).
Proof.
  intros registered.
  assert (Hsound : forall s,
            In s (getDuplicateFixedSchemas registered) ->
            (2 <= occurrences s registered)%nat).
  { intros s Hin. destruct (inherited s) eqn:Hs.
    - exfalso. unfold getDuplicateFixedSchemas in Hin.
      fold (schemaCount registered) in Hin.
      apply filter_In in Hin as [_ Hmore]. unfold get in Hmore.
      destruct (schemaCount_inherited registered s Hs) as [E | (t & _ & E)];
        rewrite E in Hmore; discriminate.
    - apply (getDuplicateFixedSchemas_spec registered s Hs), Hin. }
  split; [exact Hsound|].
  intros Hnd.
  destruct (getDuplicateFixedSchemas registered) as [|s l] eqn:E; [reflexivity|].
  exfalso. specialize (Hsound s (or_introl eq_refl)).
  assert (Hocc : forall l', List.NoDup l' -> (occurrences s l' <= 1)%nat).
  { clear. unfold occurrences.
    induction 1 as [|x l' Hx _ IH]; [simpl; lia|]. simpl.
    destruct (String.eqb_spec s x) as [->|_]; [|exact IH]. simpl.
    assert (Hnone : List.filter (String.eqb x) l' = []).
    { clear IH. induction l' as [|y l' IH]; [reflexivity|]. simpl.
      destruct (String.eqb_spec x y) as [->|_].
      - exfalso. apply Hx. left. reflexivity.
      - apply IH. intros Hin. apply Hx. right. exact Hin. }
    rewrite Hnone. simpl. lia. }
  specialize (Hocc registered Hnd). lia.
Qed.

(** ** Path items *)

Lemma reduce_snoc {A B : Type} (f : B -> A -> Result B) (l : list A) (x : A)
    (acc : B) :
  reduce f (l ++ [x]) acc
  = match reduce f l acc with Ok acc' => f acc' x | Throw e => Throw e end.
Proof.
  revert acc. induction l as [|y l IH]; intros acc; simpl.
  - destruct (f acc x); reflexivity.
  - destruct (f acc y); [apply IH | reflexivity].
Qed.

(** One step of the [reduce]: the operation of the route is stored under
    its path and method, and no other operation changes. *)
Lemma paths_step_operation ef options acc route acc' :
  inherited (Route_path route) = false ->
  paths_step ef options acc route = Ok acc' ->
  exists v,
    routeToJsonSchema ef options route = Ok v
    /\ forall path method,
         operation_at acc' path (toLowerCase method)
         = if serves path method route then Some (JObj v)
           else operation_at acc path (toLowerCase method).
Proof.
  intros Hpath. unfold paths_step, prop_get. rewrite Hpath.
  unfold mbind, Result_bind.
  destruct (routeToJsonSchema ef options route) as [v|e] eqn:Ev.
  2: { destruct (obj_get acc (Route_path route)); discriminate. }
  intros H. exists v. split; [reflexivity|].
  intros path method. unfold operation_at, serves.
  rewrite (String.eqb_sym (Route_path route) path).
  rewrite (String.eqb_sym (toLowerCase (Route_method route)) (toLowerCase method)).
  destruct (obj_get acc (Route_path route)) as [item|] eqn:E;
    ok_inv H; rewrite obj_get_set;
    (destruct (String.eqb_spec path (Route_path route)) as [->|_];
     [rewrite obj_get_set, E; simpl;
      destruct (String.eqb (toLowerCase method) (toLowerCase (Route_method route)));
      reflexivity
     | reflexivity]).
Qed.

(** The operation found in [paths] under a path and a method is the one
    of the last visited route with that path and method, whatever stands
    between; routes that differ in their method share the path item.
    Where no route has the path and the method, nothing is found. *)
Theorem path_items_last_wins :
  forall (externalFiles : JsObj string) (options : Options)
         (routes : list Route) (paths : JsObj (JsObj JsVal)),
    Forall (fun route => inherited (Route_path route) = false) routes ->
    make_paths externalFiles options routes = Ok paths ->
    forall path method,
      match find (serves path method) (rev routes) with
      | Some route =>
          exists v,
            routeToJsonSchema externalFiles options route = Ok v
            /\ operation_at paths path (toLowerCase method) = Some (JObj v)
      | None => operation_at paths path (toLowerCase method) = None
      end.
Proof.
  intros ef options routes. unfold make_paths.
  induction routes as [|route routes IH] using rev_ind;
    intros paths Hall H path method.
  - ok_inv H. reflexivity.
  - rewrite reduce_snoc in H.
    destruct (reduce (paths_step ef options) routes []) as [acc|] eqn:E;
      [|discriminate].
    apply Forall_app in Hall as [Hall Hroute].
    inversion Hroute as [|? ? Hpath _]; subst.
    destruct (paths_step_operation ef options acc route paths Hpath H)
      as (v & Hv & Hget).
    rewrite rev_app_distr. simpl. rewrite Hget.
    destruct (serves path method route).
    + exists v. split; [exact Hv | reflexivity].
    + apply (IH acc Hall eq_refl).
Qed.

Lemma path_items_last_wins_witness :
  exists paths,
    make_paths [] {| type := flat |}
      [ Referenced
          {| ReferencedRoute.method := GET;
             ReferencedRoute.path := "/a";
             ReferencedRoute.order := None;
             ReferencedRoute.ref_file := "api.json";
             ReferencedRoute.ref_path := "/paths/old";
             ReferencedRoute.deprecated := Some true |};
        ref_route "/a" (Some 1) ] = Ok paths
    /\ operation_at paths "/a" "get"
       = Some (JObj [("$ref", JStr "api.json#/paths/x")]).
Proof.
  eexists. split; [reflexivity|].
  destruct (path_items_last_wins [] {| type := flat |}
              [ Referenced
                  {| ReferencedRoute.method := GET;
                     ReferencedRoute.path := "/a";
                     ReferencedRoute.order := None;
                     ReferencedRoute.ref_file := "api.json";
                     ReferencedRoute.ref_path := "/paths/old";
                     ReferencedRoute.deprecated := Some true |};
                ref_route "/a" (Some 1) ] _
              ltac:(repeat constructor) eq_refl "/a" GET)
    as (v & Hv & Hget).
  simpl in Hv. ok_inv Hv. exact Hget.
Defined.

(** ** The effects of a build *)

Lemma only_writes_ret {A : Type} (a : A) : only_writes (mret a).
Proof. intros w. exists []. rewrite app_nil_r. split; reflexivity. Qed.

Lemma only_writes_bind {A B : Type} (m : M A) (f : A -> M B) :
  only_writes m -> (forall a, only_writes (f a)) -> only_writes (m ≫= f).
Proof.
  intros Hm Hf w. unfold mbind, M_bind.
  destruct (Hm w) as (l1 & E1 & H1).
  destruct (m w) as [[a|e] w1]; simpl in *.
  - destruct (Hf a w1) as (l2 & E2 & H2).
    exists (l1 ++ l2). rewrite E2, E1, app_assoc, forallb_app, H1, H2.
    split; reflexivity.
  - exists l1. split; assumption.
Qed.

Lemma only_writes_lift {A : Type} (x : Result A) : only_writes (lift x).
Proof. intros w. exists []. rewrite app_nil_r. split; reflexivity. Qed.

Lemma only_writes_throw {A : Type} (e : string) : only_writes (@throw A e).
Proof. intros w. exists []. rewrite app_nil_r. split; reflexivity. Qed.

Lemma only_writes_gets {A : Type} (f : World -> A) : only_writes (gets f).
Proof. intros w. exists []. rewrite app_nil_r. split; reflexivity. Qed.

Lemma only_writes_set_externalFiles f :
  only_writes (modify (set_externalFiles f)).
Proof. intros w. exists []. simpl. rewrite app_nil_r. split; reflexivity. Qed.

Lemma only_writes_emit filename data :
  only_writes (emit (WriteFile filename data)).
Proof. intros w. exists [WriteFile filename data]. split; reflexivity. Qed.

Lemma only_writes_forEach {A : Type} (body : A -> M unit) l :
  (forall x, only_writes (body x)) -> only_writes (forEach body l).
Proof.
  intros Hbody. induction l as [|x l IH]; simpl.
  - apply only_writes_ret.
  - apply only_writes_bind; [apply Hbody | intros _; exact IH].
Qed.

Create HintDb writes.
#[local] Hint Resolve only_writes_ret only_writes_lift only_writes_throw
  only_writes_gets only_writes_set_externalFiles only_writes_emit : writes.

Ltac writes_step :=
  first
    [ apply only_writes_bind; [|intros ?]
    | apply only_writes_forEach; intros ?
    | solve [auto with writes]
    | match goal with
      | |- only_writes (match ?x with _ => _ end) => destruct x
      end ].

Lemma only_writes_writeFile env filename data :
  only_writes (writeFile env filename data).
Proof. unfold writeFile. repeat writes_step. Qed.

Lemma only_writes_normalizeSchema env tempDir type source target :
  only_writes (normalizeSchema env tempDir type source target).
Proof.
  unfold normalizeSchema, randomFilename.
  repeat first [apply only_writes_writeFile | writes_step].
Qed.

Lemma only_writes_dereferenceExternalSchemas env routes tempDir :
  only_writes (dereferenceExternalSchemas env routes tempDir).
Proof.
  unfold dereferenceExternalSchemas.
  repeat first [apply only_writes_normalizeSchema | writes_step].
Qed.

Lemma writes_then_prints_bind {A : Type} out (m : M A) (f : A -> M unit) :
  only_writes m -> (forall a, writes_then_prints out (f a)) ->
  writes_then_prints out (m ≫= f).
Proof.
  intros Hm Hf w. unfold mbind, M_bind.
  destruct (Hm w) as (l1 & E1 & H1).
  destruct (m w) as [[a|e] w1]; simpl in *.
  - destruct (Hf a w1) as (writes & log & E2 & H2 & Hlog).
    exists (l1 ++ writes), log.
    rewrite E2, E1, forallb_app, H1, H2, <- !app_assoc.
    split; [reflexivity|]. split; [reflexivity | exact Hlog].
  - exists l1, []. rewrite app_nil_r.
    split; [exact E1|]. split; [exact H1|]. intros _. exists e. reflexivity.
Qed.

Lemma writes_then_prints_output out text :
  writes_then_prints out
    (match out with stdout => emit (ConsoleLog text) | _ => mret tt end).
Proof.
  intros w. destruct out as [|filename|].
  - exists [], [ConsoleLog text].
    split; [reflexivity|]. split; [reflexivity|]. split; reflexivity.
  - exists [], []. rewrite app_nil_r.
    split; [reflexivity|]. split; [reflexivity|]. discriminate.
  - exists [], []. rewrite app_nil_r.
    split; [reflexivity|]. split; [reflexivity|]. discriminate.
Qed.

(** [withTempDir], run: the directory is made before [fn] starts and its
    removal is started when [fn] has returned or thrown. *)
Lemma withTempDir_run {T : Type} env (fn : string -> M T) w :
  withTempDir env fn w
  = match fs_mkdtemp env (path_join env (os_tmpdir env) "oas-dsl") (effects w) with
    | Ok dir =>
        (fst (fn dir (set_effects (fun l => l ++ [MkDir dir]) w)),
         set_effects (fun l => l ++ [RmDir dir])
           (snd (fn dir (set_effects (fun l => l ++ [MkDir dir]) w))))
    | Throw e => (Throw e, w)
    end.
Proof.
  unfold withTempDir, mbind, M_bind, gets, lift, emit, modify, try_finally.
  destruct (fs_mkdtemp env (path_join env (os_tmpdir env) "oas-dsl") (effects w))
    as [dir|e]; [|reflexivity].
  destruct (fn dir (set_effects (fun l => l ++ [MkDir dir]) w)); reflexivity.
Qed.

(** The effects of a build in which every task of the resolver succeeds.
    If the scratch directory cannot be made, nothing happens.  Otherwise
    the directory is made first and its removal is started last, whether
    the rest of the build returns or throws; in between, the build writes
    files and does nothing else, except that a build to [stdout] that
    returns ends by printing the document once.  A build that throws
    prints nothing, and so does a build to a file or to nowhere.  A build
    in which a task of the resolver fails is left out: there the other
    tasks go on after the removal has started. *)
Theorem makeSchema_effects :
  forall (env : Collaborators) (params : Params) (options : Options) (w : World),
    (forall e,
       fs_mkdtemp env (path_join env (os_tmpdir env) "oas-dsl") (effects w)
       = Throw e ->
       makeSchema env params options w = (Throw e, w))
    /\ (forall dir,
          fs_mkdtemp env (path_join env (os_tmpdir env) "oas-dsl") (effects w)
          = Ok dir ->
          fst (dereferenceExternalSchemas env (routes params) dir
                 (set_effects (fun l => l ++ [MkDir dir]) w)) = Ok tt ->
          exists writes log,
            effects (snd (makeSchema env params options w))
            = effects w ++ MkDir dir :: writes ++ log ++ [RmDir dir]
            /\ forallb is_write writes = true
            /\ printed (output params)
                 (fst (makeSchema env params options w)) log).
Proof.
  intros env params options w.
  unfold makeSchema. rewrite withTempDir_run. split.
  - intros e ->. reflexivity.
  - intros dir -> _.
    match goal with
    | |- context [fst (?body ?w0)] =>
        assert (Hbody : writes_then_prints (output params) body);
        [|destruct (Hbody w0) as (writes & log & E & Hw & Hlog)]
    end.
    { repeat first
        [ apply writes_then_prints_output
        | apply writes_then_prints_bind; [|intros ?] ];
      repeat first
        [ apply only_writes_normalizeSchema
        | apply only_writes_dereferenceExternalSchemas
        | writes_step ]. }
    exists writes, log. simpl. rewrite E. simpl. rewrite <- !app_assoc.
    split; [reflexivity|]. split; [exact Hw | exact Hlog].
Qed.

Lemma makeSchema_effects_witness :
  effects (snd (makeSchema test_env (console_params [ref_route "/a" None])
                  {| type := flat |} World0))
  = [ MkDir "/tmp/oas-dslXXXXXX";
      WriteFile "/tmp/oas-dslXXXXXX/spec-0-api.json" "{}";
      WriteFile "/tmp/oas-dslXXXXXX/pre-normalize-a1b2c3" "{}";
      ConsoleLog "{}";
      RmDir "/tmp/oas-dslXXXXXX" ]
  /\ exists writes log,
       effects (snd (makeSchema test_env (console_params [ref_route "/a" None])
                       {| type := flat |} World0))
       = effects World0
         ++ MkDir "/tmp/oas-dslXXXXXX" :: writes ++ log ++ [RmDir "/tmp/oas-dslXXXXXX"]
       /\ forallb is_write writes = true
       /\ printed stdout
            (fst (makeSchema test_env (console_params [ref_route "/a" None])
                    {| type := flat |} World0)) log.
Proof.
  split; [reflexivity|].
  exact (proj2 (makeSchema_effects test_env (console_params [ref_route "/a" None])
                  {| type := flat |} World0)
           "/tmp/oas-dslXXXXXX" eq_refl eq_refl).
Defined.

(** ** Transformations and the output file *)

Lemma same_world_refl (a : Result unit * World) : same_world_fewer_throws a a.
Proof. split; [reflexivity | left; reflexivity]. Qed.

Lemma same_world_bind {A : Type} (m : M A) (f g : A -> M unit) w :
  (forall a w', same_world_fewer_throws (f a w') (g a w')) ->
  same_world_fewer_throws ((m ≫= f) w) ((m ≫= g) w).
Proof.
  intros Hfg. unfold mbind, M_bind.
  destruct (m w) as [[a|e] w']; [apply Hfg | apply same_world_refl].
Qed.

Lemma same_world_withTempDir env (f g : string -> M unit) w :
  (forall dir w', same_world_fewer_throws (f dir w') (g dir w')) ->
  same_world_fewer_throws (withTempDir env f w) (withTempDir env g w).
Proof.
  intros Hfg. rewrite !withTempDir_run.
  destruct (fs_mkdtemp env (path_join env (os_tmpdir env) "oas-dsl") (effects w))
    as [dir|e]; [|apply same_world_refl].
  destruct (Hfg dir (set_effects (fun l => l ++ [MkDir dir]) w)) as [Hw Hr].
  split; simpl; [rewrite Hw; reflexivity | exact Hr].
Qed.

(** The transformations do not reach the output file.  A build that does
    not print ends in the world in which it ends without its
    [transformations]: the same files hold the same text.  The
    transformations are run all the same, and the build throws if one of
    them does. *)
Theorem transformations_miss_the_file :
  forall (env : Collaborators) (params : Params) (options : Options) (w : World),
    output params <> stdout ->
    snd (makeSchema env params options w)
    = snd (makeSchema env (without_transformations params) options w)
    /\ (fst (makeSchema env params options w)
        = fst (makeSchema env (without_transformations params) options w)
        \/ (fst (makeSchema env (without_transformations params) options w) = Ok tt
            /\ exists e, fst (makeSchema env params options w) = Throw e)).
Proof.
  intros env params options w Hout.
  change (same_world_fewer_throws
            (makeSchema env params options w)
            (makeSchema env (without_transformations params) options w)).
  unfold makeSchema. apply same_world_withTempDir. intros dir w0.
  destruct params as [version inf srv tgs rts sec schemes ts out].
  unfold without_transformations. simpl in *.
  do 6 (apply same_world_bind; intros ? ?).
  destruct out as [|filename|]; [contradiction| |];
    (destruct ts as [ts|]; [|apply same_world_refl]);
    unfold mbind, M_bind, lift, mret, M_ret;
    (match goal with
     | |- context [reduce ?f ?l ?o] => destruct (reduce f l o) as [obj|e]
     end;
     [ apply same_world_refl
     | split; [reflexivity | right; split; [reflexivity | exists e; reflexivity]] ]).
Qed.

Lemma transformations_miss_the_file_witness :
  effects
    (snd (makeSchema test_env
            {| openapiVersion := "3.0.0";
               info := JObj [("title", JStr "Test"); ("version", JStr "1")];
               servers := JArr [];
               tags := [];
               routes := [];
               security := None;
               securitySchemes := JUndefined;
               transformations :=
                 Some [ {| jsonPath := "$.info.title";
                           fn := fun _ => JStr "Changed" |} ];
               output := file "openapi.json" |}
            {| type := flat |} World0))
  = [ MkDir "/tmp/oas-dslXXXXXX";
      WriteFile "/tmp/oas-dslXXXXXX/pre-normalize-a1b2c3" "{}";
      WriteFile "openapi.json" "{}";
      RmDir "/tmp/oas-dslXXXXXX" ].
Proof.
  match goal with
  | |- effects (snd (makeSchema _ ?params _ _)) = _ =>
      rewrite (proj1 (transformations_miss_the_file test_env params
                        {| type := flat |} World0 ltac:(discriminate)))
  end.
  reflexivity.
Defined.

(** ** The responses of an operation *)

Section DistinctKeys.
Context {V : Type}.
Implicit Types (o : JsObj V) (k : string) (v : V).

Lemma obj_keys_insert_index o i k v :
  Permutation (obj_keys (obj_insert_index o i k v)) (k :: obj_keys o).
Proof.
  unfold obj_keys. induction o as [|[k0 v0] o IH]; simpl; [reflexivity|].
  destruct (is_array_index k0) as [j|]; [|reflexivity].
  destruct (j <? i)%N; [|reflexivity]. simpl.
  rewrite IH. apply perm_swap.
Qed.

(** The keys of an object stay distinct. *)
Lemma obj_set_distinct o k v :
  List.NoDup (obj_keys o) -> List.NoDup (obj_keys (obj_set o k v)).
Proof.
  intros Hnd. unfold obj_set. destruct (obj_has o k) eqn:Hhas.
  - rewrite obj_keys_replace. exact Hnd.
  - assert (Hk : ~ In k (obj_keys o)).
    { rewrite obj_get_keys. unfold obj_has in Hhas.
      destruct (obj_get o k); [discriminate | tauto]. }
    assert (Hcons : List.NoDup (k :: obj_keys o)) by (constructor; assumption).
    destruct (is_array_index k) as [i|].
    + eapply Permutation_NoDup; [symmetry; apply obj_keys_insert_index | exact Hcons].
    + unfold obj_keys in *. rewrite map_app. simpl.
      eapply Permutation_NoDup; [apply Permutation_cons_append | exact Hcons].
Qed.

(** With distinct keys, a lookup does not depend on the direction. *)
Lemma obj_get_rev o k :
  List.NoDup (obj_keys o) -> obj_get (rev o) k = obj_get o k.
Proof.
  unfold obj_keys. induction o as [|[k0 v0] o IH]; simpl; [reflexivity|].
  intros Hnd. inversion Hnd as [|? ? Hk0 Hrest]; subst.
  rewrite obj_get_app, (IH Hrest). simpl.
  destruct (String.eqb_spec k k0) as [->|_].
  - destruct (obj_get o k0) as [x|] eqn:E; [|reflexivity].
    exfalso. apply Hk0. apply (proj2 (obj_get_keys o k0)). congruence.
  - destruct (obj_get o k); reflexivity.
Qed.
End DistinctKeys.

Lemma errors_reduce ef options errors :
  forall acc o,
    List.NoDup (obj_keys acc) ->
    reduce
      (fun acc response =>
         v ← toResponseSchema ef options response;
         mret (obj_set acc (pretty (RouteResponse.statusCode response)) (JObj v)))
      errors acc = Ok o ->
    List.NoDup (obj_keys o)
    /\ forall key,
         match
           find (fun response =>
                   String.eqb (pretty (RouteResponse.statusCode response)) key)
                (rev errors)
         with
         | Some response =>
             exists v, toResponseSchema ef options response = Ok v
                       /\ obj_get o key = Some (JObj v)
         | None => obj_get o key = obj_get acc key
         end.
Proof.
  induction errors as [|x errors IH]; intros acc o Hnd H; simpl in H.
  - ok_inv H. split; [exact Hnd | reflexivity].
  - unfold mbind, Result_bind in H.
    destruct (toResponseSchema ef options x) as [v|] eqn:Ev; [|discriminate].
    simpl in H.
    destruct (IH _ _ (obj_set_distinct _ _ _ Hnd) H) as [Hnd' Hget].
    split; [exact Hnd'|]. intros key. specialize (Hget key).
    simpl. rewrite find_app.
    destruct (find _ (rev errors)) as [response|]; [exact Hget|].
    rewrite Hget, obj_get_set. simpl.
    rewrite (String.eqb_sym (pretty (RouteResponse.statusCode x)) key).
    destruct (String.eqb key (pretty (RouteResponse.statusCode x)));
      [exists v; split; [exact Ev | reflexivity] | reflexivity].
Qed.

Lemma find_ext {A : Type} (p q : A -> bool) (l : list A) :
  (forall x, p x = q x) -> find p l = find q l.
Proof.
  intros Hpq. induction l as [|x l IH]; simpl; [reflexivity|].
  rewrite Hpq, IH. reflexivity.
Qed.

Lemma pretty_eqb (a b : Z) : String.eqb (pretty a) (pretty b) = (a =? b).
Proof.
  destruct (Z.eqb_spec a b) as [->|Hne]; [apply String.eqb_refl|].
  apply String.eqb_neq. intros E. apply Hne. exact (inj pretty a b E).
Qed.

(** The [responses] of an operation hold, under a status code, the last
    of the declared responses that has this code, the success response
    counting as the first: an error response that repeats the code of the
    success response replaces it.  A code that no response has is no key,
    and every key is the numeral of a declared code.  The status codes
    are safe integers, whose property key is their decimal numeral. *)
Theorem responses_last_wins :
  forall (externalFiles : JsObj string) (options : Options)
         (route : DefinedRoute.t) (j : JsonSchema),
    Forall (fun response =>
              safe_integer (RouteResponse.statusCode response) = true)
           (declared_responses route) ->
    routeToJsonSchema externalFiles options (Defined route) = Ok j ->
    exists responses,
      obj_get j "responses" = Some (JObj responses)
      /\ (forall code,
            safe_integer code = true ->
            match find (answers code) (rev (declared_responses route)) with
            | Some response =>
                exists v,
                  toResponseSchema externalFiles options response = Ok v
                  /\ obj_get responses (pretty code) = Some (JObj v)
            | None => obj_get responses (pretty code) = None
            end)
      /\ (forall key,
            obj_get responses key <> None ->
            exists response,
              In response (declared_responses route)
              /\ key = pretty (RouteResponse.statusCode response)).
Proof.
  intros ef options route j _ H.
  unfold routeToJsonSchema in H. unfold mbind, Result_bind in H.
  destruct (route_parameters ef options route) as [parameters|]; [|discriminate].
  match type of H with
  | match ?b with _ => _ end = _ => destruct b as [requestBody|]; [|discriminate]
  end.
  destruct (toResponseSchema ef options _) as [success|] eqn:Es; [|discriminate].
  destruct (reduce _ _ _) as [errors|] eqn:Ee; [|discriminate].
  simpl in H. ok_inv H. rewrite obj_get_ignoreUndefined.
  eexists. split; [reflexivity|].
  destruct (errors_reduce ef options _ [] _ (@List.NoDup_nil _) Ee) as [Hnd Hget].
  assert (Hkey : forall key,
            match
              find (fun response =>
                      String.eqb (pretty (RouteResponse.statusCode response)) key)
                   (rev (declared_responses route))
            with
            | Some response =>
                exists v, toResponseSchema ef options response = Ok v
                          /\ obj_get
                               (obj_assign
                                  (obj_lit
                                     [(pretty (RouteResponse.statusCode
                                                 (DefinedRoute.successResponse route)),
                                       JObj success)]) errors) key
                             = Some (JObj v)
            | None =>
                obj_get
                  (obj_assign
                     (obj_lit
                        [(pretty (RouteResponse.statusCode
                                    (DefinedRoute.successResponse route)),
                          JObj success)]) errors) key = None
            end).
  { intros key. specialize (Hget key).
    rewrite obj_get_assign, (obj_get_rev _ _ Hnd), obj_lit_single.
    unfold declared_responses. simpl rev. rewrite find_app.
    destruct (find _ (rev (default [] (DefinedRoute.errorResponses route))))
      as [response|].
    - destruct Hget as (v & Hv & ->). exists v. split; [exact Hv | reflexivity].
    - rewrite Hget. simpl.
      rewrite (String.eqb_sym
                 (pretty (RouteResponse.statusCode
                            (DefinedRoute.successResponse route))) key).
      destruct (String.eqb key _);
        [exists success; split; [exact Es | reflexivity] | reflexivity]. }
  split.
  - intros code _. specialize (Hkey (pretty code)).
    rewrite (find_ext _ (answers code)) in Hkey; [exact Hkey|].
    intros response. apply pretty_eqb.
  - intros key Hsome. specialize (Hkey key).
    destruct (find _ (rev (declared_responses route))) as [response|] eqn:Ef;
      [|contradiction].
    apply find_some in Ef as [Hin Heq]. exists response.
    split; [apply in_rev, Hin|]. symmetry. apply String.eqb_eq, Heq.
Qed.

Lemma responses_last_wins_witness :
  exists j responses,
    routeToJsonSchema [] {| type := flat |} (Defined repeated_code_route) = Ok j
    /\ obj_get j "responses" = Some (JObj responses)
    /\ obj_get responses "200"
       = Some (JObj [("description", JStr "Already deleted")])
    /\ obj_get responses "404" = Some (JObj [("description", JStr "Not found")])
    /\ obj_get responses "418" = None.
Proof.
  pose proof (responses_last_wins [] {| type := flat |} repeated_code_route)
    as H.
  destruct (routeToJsonSchema [] {| type := flat |} (Defined repeated_code_route))
    as [j|e] eqn:E; [|vm_compute in E; discriminate].
  destruct (H j ltac:(repeat constructor) eq_refl)
    as (responses & Hresponses & Hcode & _).
  exists j, responses. split; [reflexivity|]. split; [exact Hresponses|].
  split; [|split].
  - destruct (Hcode 200 eq_refl) as (v & Hv & Hget).
    simpl in Hv. ok_inv Hv. exact Hget.
  - destruct (Hcode 404 eq_refl) as (v & Hv & Hget).
    simpl in Hv. ok_inv Hv. exact Hget.
  - exact (Hcode 418 eq_refl).
Defined.
